(** * Configuration validation and component factories of the collector

    A shallow embedding of
    - [processor/transformprocessor/config.go]  ([Config.Validate]),
    - [processor/resourceprocessor/factory.go],
    - [extension/storage/filestorage/factory.go] ([createDefaultConfig]),
    - [exporter/tanzuobservabilityexporter/metrics_exporter.go]
      ([newMetricsExporter]),
    together with a model of the statement engine that the transform
    processor configures.

    Go values are modelled as follows.  An [error] is [option string]:
    [None] is [nil] and [Some msg] is an error whose [Error()] text is [msg].
    A Go result pair [(T, error)] is a Rocq pair, so that "a value and an
    error at once" stays expressible.  A pointer that may be [nil] is an
    [option].  Functions that live in other packages are Section variables. *)

From stdpp Require Import base strings list gmap pretty.

(** ** Go errors *)

Definition error := option string.

(** [fmt.Errorf] with a format that holds no verb, or whose verbs have
    already been rendered into [msg]. *)
Definition Errorf (msg : string) : error := Some msg.

(** [fmt.Errorf("<prefix>: %w", err)] for a non-nil [err]. *)
Definition wrap (pre : string) (err : string) : error := Some (pre +:+ err).

(** The double quote character, for messages that quote a value. *)
Definition dq : string := String (Ascii.ascii_of_nat 34) "".

(** [mentions msg needle]: the text [needle] occurs in [msg]. *)
Definition mentions (msg needle : string) : Prop :=
  exists pre post, msg = pre +:+ needle +:+ post.

Fixpoint is_prefix (p s : string) : bool :=
  match p, s with
  | EmptyString, _ => true
  | String a p', String b s' => if decide (a = b) then is_prefix p' s' else false
  | String _ _, EmptyString => false
  end.

Fixpoint contains (s needle : string) : bool :=
  is_prefix needle s ||
  match s with
  | EmptyString => false
  | String _ s' => contains s' needle
  end.

(** [component.ID] of the collector and its [String()] method, which is what
    the verb [%v] prints. *)
Record ID := mkID { typeVal : string; nameVal : string }.

Definition NewID (t : string) : ID := mkID t "".

Definition ID_String (id : ID) : string :=
  if decide (nameVal id = "") then typeVal id
  else typeVal id +:+ "/" +:+ nameVal id.

Lemma app_cons_s (x : Ascii.ascii) (a b : string) :
  String x a +:+ b = String x (a +:+ b).
Proof. reflexivity. Qed.

Lemma app_nil_s (b : string) : "" +:+ b = b.
Proof. reflexivity. Qed.

Lemma app_nil_r_s (a : string) : a +:+ "" = a.
Proof.
  induction a as [|x a IH]; [reflexivity|].
  rewrite app_cons_s. f_equal. exact IH.
Qed.

Lemma app_assoc_s (a b c : string) : (a +:+ b) +:+ c = a +:+ (b +:+ c).
Proof.
  induction a as [|x a IH]; [reflexivity|].
  rewrite !app_cons_s. f_equal. exact IH.
Qed.

Lemma is_prefix_app (p s : string) : is_prefix p (p +:+ s) = true.
Proof.
  induction p as [|a p IH]; [reflexivity|].
  rewrite app_cons_s. simpl.
  destruct (decide (a = a)); [exact IH | congruence].
Qed.

Lemma contains_cons (a : Ascii.ascii) (s needle : string) :
  contains s needle = true -> contains (String a s) needle = true.
Proof. intros H. simpl. rewrite H. apply orb_true_r. Qed.

Lemma contains_prefix (s needle : string) :
  is_prefix needle s = true -> contains s needle = true.
Proof. intros H. destruct s; simpl; rewrite H; reflexivity. Qed.

Lemma contains_mentions (msg needle : string) :
  mentions msg needle -> contains msg needle = true.
Proof.
  intros (pre & post & ->).
  induction pre as [|a pre IH].
  - rewrite app_nil_s. apply contains_prefix, is_prefix_app.
  - rewrite app_cons_s. apply contains_cons, IH.
Qed.

Lemma not_mentions (msg needle : string) :
  contains msg needle = false -> ~ mentions msg needle.
Proof.
  intros Hc Hm. apply contains_mentions in Hm. congruence.
Qed.

(** ** extension/storage/filestorage/factory.go *)

Module filestorage.

Definition typeStr : string := "file_storage".

(** [time.Duration] counts nanoseconds. *)
Definition Second : Z := 1000000000.

Definition defaultMaxTransactionSize : Z := 65536.
Definition defaultReboundTriggerThresholdMib : Z := 10.
Definition defaultReboundNeededThresholdMib : Z := 100.
Definition defaultCompactionInterval : Z := Second * 5.

(** The fields [createDefaultConfig] fills in; the struct declarations are in
    the package's [config.go]. *)
Record CompactionConfig := mkCompactionConfig {
  CompactionDirectory : string;
  OnStart : bool;
  OnRebound : bool;
  MaxTransactionSize : Z;
  ReboundNeededThresholdMiB : Z;
  ReboundTriggerThresholdMiB : Z;
  CheckInterval : Z
}.

Record Config := mkConfig {
  ExtensionSettings : ID;
  Directory : string;
  Compaction : option CompactionConfig;
  Timeout : Z
}.

Section Factory.

(** [getDefaultDirectory()] depends on the operating system. *)
Variable getDefaultDirectory : string.

Definition createDefaultConfig : Config :=
  {| ExtensionSettings := NewID typeStr;
     Directory := getDefaultDirectory;
     Compaction := Some
       {| CompactionDirectory := getDefaultDirectory;
          OnStart := false;
          OnRebound := false;
          MaxTransactionSize := defaultMaxTransactionSize;
          ReboundNeededThresholdMiB := defaultReboundTriggerThresholdMib;
          ReboundTriggerThresholdMiB := defaultReboundNeededThresholdMib;
          CheckInterval := defaultCompactionInterval |};
     Timeout := Second |}.

End Factory.

(** C9. The default config of the file_storage extension carries a
    compaction block whose [ReboundNeededThresholdMiB] is
    [defaultReboundTriggerThresholdMib] = 10 and whose
    [ReboundTriggerThresholdMiB] is [defaultReboundNeededThresholdMib] = 100:
    each constant lands in the field named after the other one, and the
    default trigger threshold is above the default needed threshold. *)
Theorem default_rebound_thresholds_crossed (dir : string) :
  exists cc : CompactionConfig,
    Compaction (createDefaultConfig dir) = Some cc /\
    ReboundNeededThresholdMiB cc = defaultReboundTriggerThresholdMib /\
    ReboundNeededThresholdMiB cc = 10%Z /\
    ReboundTriggerThresholdMiB cc = defaultReboundNeededThresholdMib /\
    ReboundTriggerThresholdMiB cc = 100%Z /\
    (ReboundNeededThresholdMiB cc < ReboundTriggerThresholdMiB cc)%Z.
Proof.
  eexists. split; [reflexivity|]. cbn.
  unfold defaultReboundTriggerThresholdMib, defaultReboundNeededThresholdMib.
  repeat split; lia.
Qed.

End filestorage.

(** ** processor/resourceprocessor/factory.go *)

Module resourceprocessor.

Definition typeStr : string := "resource".

Section Factory.

(** Package [attraction]. *)
Variable ActionKeyValue : Type.
Variable AttrProc : Type.
(** [attraction.NewAttrProc(&attraction.Settings{Actions: actions})]. *)
Variable NewAttrProc : list ActionKeyValue -> option AttrProc * error.

(** Collector core: contexts, create settings, consumers, processors and the
    constructors of [processorhelper]. *)
Variable context : Type.
Variable Logger : Type.
Variable ProcessorCreateSettings : Type.
Variable Logger_of : ProcessorCreateSettings -> Logger.
Variables TracesConsumer MetricsConsumer LogsConsumer : Type.
Variables TracesProcessor MetricsProcessor LogsProcessor : Type.

(** The package's [Config] (declared in [config.go]): the embedded
    [config.ProcessorSettings], which holds the component ID, and the
    actions under the key [attributes]. *)
Record Config := mkConfig {
  ProcessorSettings : ID;
  AttributesActions : list ActionKeyValue
}.

Definition Config_ID (cfg : Config) : ID := ProcessorSettings cfg.

Record resourceProcessor := mkResourceProcessor {
  logger : Logger;
  attrProc : option AttrProc
}.

(** [processorhelper.NewTracesProcessor(ctx, set, cfg, nextConsumer,
    proc.processTraces, WithCapabilities(processorCapabilities))] and its
    siblings; the method value is represented by its receiver. *)
Variable NewTracesProcessor :
  context -> ProcessorCreateSettings -> Config -> TracesConsumer ->
  resourceProcessor -> option TracesProcessor * error.
Variable NewMetricsProcessor :
  context -> ProcessorCreateSettings -> Config -> MetricsConsumer ->
  resourceProcessor -> option MetricsProcessor * error.
Variable NewLogsProcessor :
  context -> ProcessorCreateSettings -> Config -> LogsConsumer ->
  resourceProcessor -> option LogsProcessor * error.

(** Note in the source: this is not a valid configuration because the
    processor would do no work. *)
Definition createDefaultConfig : Config :=
  {| ProcessorSettings := NewID typeStr; AttributesActions := [] |}.

Definition missing_attributes_message (id : ID) : string :=
  "error creating " +:+ dq +:+ ID_String id +:+ dq +:+
  " processor due to missing required field " +:+ dq +:+ "attributes" +:+ dq.

Definition createAttrProcessor (cfg : Config) : option AttrProc * error :=
  if decide (length (AttributesActions cfg) = 0) then
    (None, Errorf (missing_attributes_message (Config_ID cfg)))
  else
    match NewAttrProc (AttributesActions cfg) with
    | (_, Some err) =>
        (None,
         wrap ("error creating " +:+ dq +:+ ID_String (Config_ID cfg) +:+ dq +:+
               " processor: ") err)
    | (attrProc, None) => (attrProc, None)
    end.

(** The three constructors take the config as [component.ProcessorConfig]
    and assert it to be this package's [Config]; here the argument already
    has that type. *)
Definition createTracesProcessor (ctx : context) (set : ProcessorCreateSettings)
    (cfg : Config) (nextConsumer : TracesConsumer)
    : option TracesProcessor * error :=
  match createAttrProcessor cfg with
  | (_, Some err) => (None, Some err)
  | (attrProc, None) =>
      let proc := {| logger := Logger_of set; attrProc := attrProc |} in
      NewTracesProcessor ctx set cfg nextConsumer proc
  end.

Definition createMetricsProcessor (ctx : context) (set : ProcessorCreateSettings)
    (cfg : Config) (nextConsumer : MetricsConsumer)
    : option MetricsProcessor * error :=
  match createAttrProcessor cfg with
  | (_, Some err) => (None, Some err)
  | (attrProc, None) =>
      let proc := {| logger := Logger_of set; attrProc := attrProc |} in
      NewMetricsProcessor ctx set cfg nextConsumer proc
  end.

Definition createLogsProcessor (ctx : context) (set : ProcessorCreateSettings)
    (cfg : Config) (nextConsumer : LogsConsumer)
    : option LogsProcessor * error :=
  match createAttrProcessor cfg with
  | (_, Some err) => (None, Some err)
  | (attrProc, None) =>
      let proc := {| logger := Logger_of set; attrProc := attrProc |} in
      NewLogsProcessor ctx set cfg nextConsumer proc
  end.

(** The text every "missing attributes" error ends with. *)
Definition missing_field_text : string :=
  "missing required field " +:+ dq +:+ "attributes" +:+ dq.

Lemma missing_message_mentions (id : ID) :
  mentions (missing_attributes_message id) missing_field_text.
Proof.
  unfold missing_attributes_message, missing_field_text.
  exists ("error creating " +:+ dq +:+ ID_String id +:+ dq +:+ " processor due to "), "".
  rewrite !app_assoc_s, app_nil_r_s. reflexivity.
Qed.

Lemma createAttrProcessor_empty (cfg : Config) :
  AttributesActions cfg = [] ->
  createAttrProcessor cfg =
    (None, Some (missing_attributes_message (Config_ID cfg))).
Proof.
  intros H. unfold createAttrProcessor. rewrite H. reflexivity.
Qed.

Lemma createAttrProcessor_ok (cfg : Config) (ap : option AttrProc) :
  createAttrProcessor cfg = (ap, None) ->
  AttributesActions cfg <> [] /\ NewAttrProc (AttributesActions cfg) = (ap, None).
Proof.
  unfold createAttrProcessor.
  destruct (AttributesActions cfg) as [|a l] eqn:Ha; simpl; [discriminate|].
  destruct (NewAttrProc (a :: l)) as [p [e|]]; unfold wrap; intros H;
    simplify_eq; done.
Qed.

Lemma processor_needs_attr_processor {P : Type} (lg : Logger)
    (mk : resourceProcessor -> option P * error) (cfg : Config)
    (p : P) (e : error) :
  match createAttrProcessor cfg with
  | (_, Some err) => (None, Some err)
  | (ap, None) => mk {| logger := lg; attrProc := ap |}
  end = (Some p, e) ->
  AttributesActions cfg <> [] /\ (NewAttrProc (AttributesActions cfg)).2 = None.
Proof.
  destruct (createAttrProcessor cfg) as [ap [err|]] eqn:Hc; [discriminate|].
  intros _. apply createAttrProcessor_ok in Hc as [Hne Hnew].
  rewrite Hnew. done.
Qed.

(** C8. With an empty [AttributesActions] list each of the three
    constructors returns no processor and the same error, whose text
    mentions the missing required field "attributes"; the factory's default
    config is such a config, with the ID [resource] in the message; and
    whenever a constructor does return a processor, the list was non-empty
    and [attraction.NewAttrProc] accepted it. *)
Theorem empty_actions_create_no_processor
    (ctx : context) (set : ProcessorCreateSettings) (cfg : Config)
    (nt : TracesConsumer) (nm : MetricsConsumer) (nl : LogsConsumer) :
  (AttributesActions cfg = [] ->
     let msg := missing_attributes_message (Config_ID cfg) in
     mentions msg missing_field_text /\
     createTracesProcessor ctx set cfg nt = (None, Some msg) /\
     createMetricsProcessor ctx set cfg nm = (None, Some msg) /\
     createLogsProcessor ctx set cfg nl = (None, Some msg)) /\
  (let msg := "error creating " +:+ dq +:+ "resource" +:+ dq +:+
              " processor due to " +:+ missing_field_text in
   createTracesProcessor ctx set createDefaultConfig nt = (None, Some msg) /\
   createMetricsProcessor ctx set createDefaultConfig nm = (None, Some msg) /\
   createLogsProcessor ctx set createDefaultConfig nl = (None, Some msg)) /\
  (forall p e, createTracesProcessor ctx set cfg nt = (Some p, e) ->
     AttributesActions cfg <> [] /\
     (NewAttrProc (AttributesActions cfg)).2 = None) /\
  (forall p e, createMetricsProcessor ctx set cfg nm = (Some p, e) ->
     AttributesActions cfg <> [] /\
     (NewAttrProc (AttributesActions cfg)).2 = None) /\
  (forall p e, createLogsProcessor ctx set cfg nl = (Some p, e) ->
     AttributesActions cfg <> [] /\
     (NewAttrProc (AttributesActions cfg)).2 = None).
Proof.
  split; [|split; [|split; [|split]]].
  - intros Hnil msg. split; [apply missing_message_mentions|].
    unfold createTracesProcessor, createMetricsProcessor, createLogsProcessor.
    rewrite (createAttrProcessor_empty cfg Hnil). done.
  - done.
  - intros p e. unfold createTracesProcessor.
    apply (processor_needs_attr_processor (Logger_of set)
             (fun proc => NewTracesProcessor ctx set cfg nt proc)).
  - intros p e. unfold createMetricsProcessor.
    apply (processor_needs_attr_processor (Logger_of set)
             (fun proc => NewMetricsProcessor ctx set cfg nm proc)).
  - intros p e. unfold createLogsProcessor.
    apply (processor_needs_attr_processor (Logger_of set)
             (fun proc => NewLogsProcessor ctx set cfg nl proc)).
Qed.

(** *** The paths past the check for missing actions *)

Definition rejected_actions_message (id : ID) (err : string) : string :=
  ("error creating " +:+ dq +:+ ID_String id +:+ dq +:+ " processor: ") +:+ err.

Lemma createAttrProcessor_rejected (cfg : Config) (ap : option AttrProc)
    (err : string) :
  AttributesActions cfg <> [] ->
  NewAttrProc (AttributesActions cfg) = (ap, Some err) ->
  createAttrProcessor cfg =
    (None, Some (rejected_actions_message (Config_ID cfg) err)).
Proof.
  intros Hne Hnew. unfold createAttrProcessor.
  destruct (AttributesActions cfg) as [|a l]; [contradiction|].
  simpl. rewrite Hnew. reflexivity.
Qed.

Lemma createAttrProcessor_accepted (cfg : Config) (ap : option AttrProc) :
  AttributesActions cfg <> [] ->
  NewAttrProc (AttributesActions cfg) = (ap, None) ->
  createAttrProcessor cfg = (ap, None).
Proof.
  intros Hne Hnew. unfold createAttrProcessor.
  destruct (AttributesActions cfg) as [|a l]; [contradiction|].
  simpl. rewrite Hnew. reflexivity.
Qed.

(** X5. When the action list is not empty and [attraction.NewAttrProc]
    rejects it, the three constructors return no processor and one and the
    same error, which carries the component ID and the text of the
    underlying error; what [processorhelper] would have built plays no
    part. *)
Theorem rejected_actions_create_no_processor
    (ctx : context) (set : ProcessorCreateSettings) (cfg : Config)
    (nt : TracesConsumer) (nm : MetricsConsumer) (nl : LogsConsumer)
    (ap : option AttrProc) (err : string) :
  AttributesActions cfg <> [] ->
  NewAttrProc (AttributesActions cfg) = (ap, Some err) ->
  let msg := rejected_actions_message (Config_ID cfg) err in
  createTracesProcessor ctx set cfg nt = (None, Some msg) /\
  createMetricsProcessor ctx set cfg nm = (None, Some msg) /\
  createLogsProcessor ctx set cfg nl = (None, Some msg) /\
  mentions msg (ID_String (Config_ID cfg)) /\
  mentions msg err.
Proof.
  intros Hne Hnew msg.
  unfold createTracesProcessor, createMetricsProcessor, createLogsProcessor.
  rewrite (createAttrProcessor_rejected cfg ap err Hne Hnew).
  repeat split.
  - exists ("error creating " +:+ dq), (dq +:+ " processor: " +:+ err).
    unfold msg, rejected_actions_message. rewrite !app_assoc_s. reflexivity.
  - exists ("error creating " +:+ dq +:+ ID_String (Config_ID cfg) +:+ dq +:+
            " processor: "), "".
    unfold msg, rejected_actions_message. rewrite app_nil_r_s. reflexivity.
Qed.

(** X6. When the action list is not empty and [attraction.NewAttrProc]
    accepts it, each constructor returns what the [processorhelper]
    constructor of its signal returns for a resource processor that holds
    the logger of the create settings and the attribute processor just
    built: the three signals share one way of building it. *)
Theorem accepted_actions_delegate
    (ctx : context) (set : ProcessorCreateSettings) (cfg : Config)
    (nt : TracesConsumer) (nm : MetricsConsumer) (nl : LogsConsumer)
    (ap : option AttrProc) :
  AttributesActions cfg <> [] ->
  NewAttrProc (AttributesActions cfg) = (ap, None) ->
  let proc := {| logger := Logger_of set; attrProc := ap |} in
  createTracesProcessor ctx set cfg nt =
    NewTracesProcessor ctx set cfg nt proc /\
  createMetricsProcessor ctx set cfg nm =
    NewMetricsProcessor ctx set cfg nm proc /\
  createLogsProcessor ctx set cfg nl =
    NewLogsProcessor ctx set cfg nl proc.
Proof.
  intros Hne Hnew proc.
  unfold createTracesProcessor, createMetricsProcessor, createLogsProcessor.
  rewrite (createAttrProcessor_accepted cfg ap Hne Hnew). done.
Qed.

End Factory.

(** A concrete instance of the collaborators: string actions that
    [NewAttrProc] always accepts, and helper constructors that always build
    a processor. *)
Definition demoNewAttrProc (actions : list string) : option unit * error :=
  (Some tt, None).

Definition demoNewProcessor (ctx set : unit) (cfg : Config string)
    (next : unit) (proc : resourceProcessor unit unit) : option unit * error :=
  (Some tt, None).

Lemma empty_actions_create_no_processor_witness :
  let cfg := createDefaultConfig string in
  let msg := missing_attributes_message (Config_ID string cfg) in
  mentions msg missing_field_text /\
  createTracesProcessor string unit demoNewAttrProc unit unit unit id
    unit unit demoNewProcessor tt tt cfg tt = (None, Some msg) /\
  createMetricsProcessor string unit demoNewAttrProc unit unit unit id
    unit unit demoNewProcessor tt tt cfg tt = (None, Some msg) /\
  createLogsProcessor string unit demoNewAttrProc unit unit unit id
    unit unit demoNewProcessor tt tt cfg tt = (None, Some msg).
Proof.
  intros cfg.
  apply (empty_actions_create_no_processor string unit demoNewAttrProc
           unit unit unit id unit unit unit unit unit unit
           demoNewProcessor demoNewProcessor demoNewProcessor
           tt tt cfg tt tt tt).
  reflexivity.
Defined.

(** An attribute processor constructor that rejects the action [bad]. *)
Definition pickyNewAttrProc (actions : list string) : option unit * error :=
  if bool_decide ("bad" ∈ actions) then (None, Some "unsupported action bad")
  else (Some tt, None).

Definition namedConfig (actions : list string) : Config string :=
  {| ProcessorSettings := mkID "resource" "second";
     AttributesActions := actions |}.

Lemma rejected_actions_create_no_processor_witness :
  let msg := rejected_actions_message (mkID "resource" "second")
               "unsupported action bad" in
  createTracesProcessor string unit pickyNewAttrProc unit unit unit id
    unit unit demoNewProcessor tt tt (namedConfig ["insert"; "bad"]) tt =
    (None, Some msg) /\
  createMetricsProcessor string unit pickyNewAttrProc unit unit unit id
    unit unit demoNewProcessor tt tt (namedConfig ["insert"; "bad"]) tt =
    (None, Some msg) /\
  createLogsProcessor string unit pickyNewAttrProc unit unit unit id
    unit unit demoNewProcessor tt tt (namedConfig ["insert"; "bad"]) tt =
    (None, Some msg) /\
  mentions msg "resource/second" /\
  mentions msg "unsupported action bad".
Proof.
  apply (rejected_actions_create_no_processor string unit pickyNewAttrProc
           unit unit unit id unit unit unit unit unit unit
           demoNewProcessor demoNewProcessor demoNewProcessor
           tt tt (namedConfig ["insert"; "bad"]) tt tt tt None
           "unsupported action bad").
  - discriminate.
  - reflexivity.
Defined.

Lemma accepted_actions_delegate_witness :
  createTracesProcessor string unit pickyNewAttrProc unit unit unit id
    unit unit demoNewProcessor tt tt (namedConfig ["insert"]) tt =
    (Some tt, None) /\
  createMetricsProcessor string unit pickyNewAttrProc unit unit unit id
    unit unit demoNewProcessor tt tt (namedConfig ["insert"]) tt =
    (Some tt, None) /\
  createLogsProcessor string unit pickyNewAttrProc unit unit unit id
    unit unit demoNewProcessor tt tt (namedConfig ["insert"]) tt =
    (Some tt, None).
Proof.
  apply (accepted_actions_delegate string unit pickyNewAttrProc
           unit unit unit id unit unit unit unit unit unit
           demoNewProcessor demoNewProcessor demoNewProcessor
           tt tt (namedConfig ["insert"]) tt tt tt (Some tt)).
  - discriminate.
  - reflexivity.
Defined.

End resourceprocessor.

(** ** exporter/tanzuobservabilityexporter/metrics_exporter.go *)

Module tanzuobservabilityexporter.

Section Exporter.

(** [MetricsConfig], the collector's [component.TelemetrySettings] and the
    package's [metricsConsumer]. *)
Variable MetricsConfig : Type.
Variable TelemetrySettings : Type.
Variable metricsConsumer : Type.

Record BuildInfo := mkBuildInfo { Version : string }.

Record ExporterCreateSettings := mkExporterCreateSettings {
  TelemetrySettings_of : TelemetrySettings;
  BuildInfo_of : BuildInfo
}.

(** The package's [Config] (declared in [config.go]), reduced to what
    [newMetricsExporter] reads. *)
Record Config := mkConfig {
  ExporterSettings : ID;
  Metrics : MetricsConfig
}.

(** Methods of [Config] declared in [config.go]. *)
Variable hasMetricsEndpoint : Config -> bool.
Variable parseMetricsEndpoint : Config -> string * Z * error.

(** A [component.ExporterConfig] is either this package's [Config] (always
    handed over as a non-nil pointer by the factory) or a value of some
    other type, kept here by its [%#v] rendering. *)
Inductive ExporterConfig :=
  | ThisConfig (cfg : Config)
  | OtherConfig (goSyntax : string).

Record metricsExporter := mkMetricsExporter {
  consumer : option metricsConsumer
}.

Definition metricsConsumerCreator : Type :=
  MetricsConfig -> TelemetrySettings -> string -> option metricsConsumer * error.

Definition newMetricsExporter (settings : ExporterCreateSettings)
    (c : ExporterConfig) (creator : metricsConsumerCreator)
    : option metricsExporter * error :=
  match c with
  | OtherConfig shown => (None, Errorf ("invalid config: " +:+ shown))
  | ThisConfig cfg =>
      if negb (hasMetricsEndpoint cfg) then
        (None, Errorf "metrics.endpoint required")
      else
        match parseMetricsEndpoint cfg with
        | (_, _, Some err) => (None, wrap "failed to parse metrics.endpoint: " err)
        | (_, _, None) =>
            match creator (Metrics cfg) (TelemetrySettings_of settings)
                    (Version (BuildInfo_of settings)) with
            | (_, Some err) => (None, Some err)
            | (consumer, None) => (Some {| consumer := consumer |}, None)
            end
        end
  end.

(** The four ways the construction is refused. *)
Definition refused (settings : ExporterCreateSettings) (c : ExporterConfig)
    (creator : metricsConsumerCreator) : Prop :=
  match c with
  | OtherConfig _ => True
  | ThisConfig cfg =>
      hasMetricsEndpoint cfg = false \/
      (parseMetricsEndpoint cfg).2 <> None \/
      (creator (Metrics cfg) (TelemetrySettings_of settings)
         (Version (BuildInfo_of settings))).2 <> None
  end.

(** C10. [newMetricsExporter] returns no exporter and a non-nil error when
    the config is of another type, has no metrics endpoint, has an endpoint
    that does not parse, or the creator fails; in every other case it
    returns, without error, an exporter that holds the creator's consumer;
    and it never returns an exporter together with an error. *)
Theorem newMetricsExporter_result (settings : ExporterCreateSettings)
    (c : ExporterConfig) (creator : metricsConsumerCreator) :
  (refused settings c creator ->
     exists msg, newMetricsExporter settings c creator = (None, Some msg)) /\
  (~ refused settings c creator ->
     exists cfg made,
       c = ThisConfig cfg /\
       creator (Metrics cfg) (TelemetrySettings_of settings)
         (Version (BuildInfo_of settings)) = (made, None) /\
       newMetricsExporter settings c creator =
         (Some {| consumer := made |}, None)) /\
  (forall x e, newMetricsExporter settings c creator = (Some x, e) -> e = None).
Proof.
  unfold refused, newMetricsExporter.
  destruct c as [cfg|shown].
  - destruct (hasMetricsEndpoint cfg) eqn:Hhas; simpl.
    + destruct (parseMetricsEndpoint cfg) as [[host port] [perr|]] eqn:Hparse;
        simpl.
      * split; [|split].
        -- intros _. eexists. reflexivity.
        -- intros Hn. exfalso. apply Hn. right. left. discriminate.
        -- intros x e He. discriminate He.
      * destruct (creator _ _ _) as [made [cerr|]] eqn:Hmk; simpl.
        -- split; [|split].
           ++ intros _. eexists. reflexivity.
           ++ intros Hn. exfalso. apply Hn. right. right. discriminate.
           ++ intros x e He. discriminate He.
        -- split; [|split].
           ++ intros [H|[H|H]]; [discriminate H | contradiction | contradiction].
           ++ intros _. exists cfg, made. rewrite Hmk. done.
           ++ intros x e He. congruence.
    + split; [|split].
      * intros _. eexists. reflexivity.
      * intros Hn. exfalso. apply Hn. left. reflexivity.
      * intros x e He. discriminate He.
  - split; [|split].
    + intros _. eexists. reflexivity.
    + intros Hn. exfalso. apply Hn. exact I.
    + intros x e He. discriminate He.
Qed.

End Exporter.

(** A concrete instance: the endpoint is the metrics config itself, an
    endpoint is present when the text is not empty, it parses unless it is
    [bad], and the creator hands the endpoint back as the consumer. *)
Definition demoHasEndpoint (cfg : Config string) : bool :=
  negb (String.eqb (Metrics string cfg) "").

Definition demoParseEndpoint (cfg : Config string) : string * Z * error :=
  if String.eqb (Metrics string cfg) "bad" then ("", 0%Z, Some "bad port")
  else (Metrics string cfg, 2878%Z, None).

Definition demoCreator : metricsConsumerCreator string unit string :=
  fun endpoint _ _ => (Some endpoint, None).

Definition demoSettings : ExporterCreateSettings unit :=
  {| TelemetrySettings_of := tt; BuildInfo_of := {| Version := "v0.66.0" |} |}.

Lemma newMetricsExporter_result_witness :
  (exists msg,
     newMetricsExporter string unit string demoHasEndpoint demoParseEndpoint
       demoSettings (ThisConfig string (mkConfig string (NewID "tanzuobservability") ""))
       demoCreator = (None, Some msg)) /\
  (exists cfg made,
     ThisConfig string (mkConfig string (NewID "tanzuobservability") "http://localhost:2878")
       = ThisConfig string cfg /\
     demoCreator (Metrics string cfg) tt "v0.66.0" = (made, None) /\
     newMetricsExporter string unit string demoHasEndpoint demoParseEndpoint
       demoSettings
       (ThisConfig string (mkConfig string (NewID "tanzuobservability") "http://localhost:2878"))
       demoCreator = (Some {| consumer := made |}, None)).
Proof.
  split.
  - apply (newMetricsExporter_result string unit string demoHasEndpoint
             demoParseEndpoint demoSettings
             (ThisConfig string (mkConfig string (NewID "tanzuobservability") ""))
             demoCreator).
    simpl. left. reflexivity.
  - apply (newMetricsExporter_result string unit string demoHasEndpoint
             demoParseEndpoint demoSettings
             (ThisConfig string
                (mkConfig string (NewID "tanzuobservability") "http://localhost:2878"))
             demoCreator).
    simpl. intros [H|[H|H]]; [discriminate H | apply H; reflexivity | apply H; reflexivity].
Defined.

(** *** [createMetricsConsumer] and its use as the creator *)

(** Options of [senders.NewSender] in the Wavefront SDK. *)
Inductive SenderOption :=
  | FlushIntervalSeconds (n : Z)
  | SDKMetricsTags (tags : gmap string string).

Section Consumer.

Variable MetricsConfig : Type.
Variable TelemetrySettings : Type.
Variable metricsConsumer : Type.
(** [config.Endpoint] of a [MetricsConfig]. *)
Variable Endpoint : MetricsConfig -> string.
(** The Wavefront SDK: a [senders.Sender] is an interface value. *)
Variable Sender : Type.
Variable NewSender : string -> list SenderOption -> Sender * error.
(** The consumers of the package's [metrics.go]. *)
Variable histogramDataPointConsumer : Type.
Variable typedMetricConsumer : Type.
Variable histogramSpecification : Type.
Variables regularHistogram exponentialHistogram : histogramSpecification.
Variable newCumulativeHistogramDataPointConsumer :
  Sender -> histogramDataPointConsumer.
Variable newDeltaHistogramDataPointConsumer :
  Sender -> histogramDataPointConsumer.
Variable newGaugeConsumer : Sender -> TelemetrySettings -> typedMetricConsumer.
Variable newSumConsumer : Sender -> TelemetrySettings -> typedMetricConsumer.
Variable newHistogramConsumer :
  histogramDataPointConsumer -> histogramDataPointConsumer -> Sender ->
  histogramSpecification -> TelemetrySettings -> typedMetricConsumer.
Variable newSummaryConsumer : Sender -> TelemetrySettings -> typedMetricConsumer.
Variable newMetricsConsumer :
  list typedMetricConsumer -> Sender -> bool -> MetricsConfig -> metricsConsumer.

Variable hasMetricsEndpoint : Config MetricsConfig -> bool.
Variable parseMetricsEndpoint : Config MetricsConfig -> string * Z * error.

Definition senderOptions (otelVersion : string) : list SenderOption :=
  [ FlushIntervalSeconds 60;
    SDKMetricsTags {[ "otel.metrics.collector_version" := otelVersion ]} ].

Definition createMetricsConsumer (config : MetricsConfig)
    (settings : TelemetrySettings) (otelVersion : string)
    : option metricsConsumer * error :=
  match NewSender (Endpoint config) (senderOptions otelVersion) with
  | (_, Some err) => (None, wrap "failed to create proxy sender: " err)
  | (s, None) =>
      let cumulative := newCumulativeHistogramDataPointConsumer s in
      let delta := newDeltaHistogramDataPointConsumer s in
      (Some (newMetricsConsumer
               [ newGaugeConsumer s settings;
                 newSumConsumer s settings;
                 newHistogramConsumer cumulative delta s regularHistogram settings;
                 newHistogramConsumer cumulative delta s exponentialHistogram settings;
                 newSummaryConsumer s settings ]
               s true config),
       None)
  end.

(** The configuration itself is refused, before any creator is asked. *)
Definition config_refused (c : ExporterConfig MetricsConfig) : Prop :=
  match c with
  | OtherConfig _ _ => True
  | ThisConfig _ cfg =>
      hasMetricsEndpoint cfg = false \/ (parseMetricsEndpoint cfg).2 <> None
  end.

(** X7. For a configuration that is refused on its own (another type, no
    metrics endpoint, or an endpoint that does not parse)
    [newMetricsExporter] does not consult the creator: the result is the
    same for any two creators, so no sender is opened for it. *)
Theorem refused_config_needs_no_creator
    (settings : ExporterCreateSettings TelemetrySettings)
    (c : ExporterConfig MetricsConfig)
    (creator creator' : metricsConsumerCreator MetricsConfig TelemetrySettings
                          metricsConsumer) :
  config_refused c ->
  newMetricsExporter MetricsConfig TelemetrySettings metricsConsumer
    hasMetricsEndpoint parseMetricsEndpoint settings c creator =
  newMetricsExporter MetricsConfig TelemetrySettings metricsConsumer
    hasMetricsEndpoint parseMetricsEndpoint settings c creator'.
Proof.
  unfold config_refused, newMetricsExporter.
  destruct c as [cfg|shown]; [|reflexivity].
  intros [Hno | Hparse].
  - rewrite Hno. reflexivity.
  - destruct (hasMetricsEndpoint cfg); [|reflexivity]. simpl.
    destruct (parseMetricsEndpoint cfg) as [[host port] [err|]];
      [reflexivity | contradiction].
Qed.

(** X8. With [createMetricsConsumer] as the creator and a configuration whose
    metrics endpoint is present and parses, [newMetricsExporter] opens one
    sender for the endpoint of [cfg.Metrics], flushing every 60 seconds and
    tagged with the collector version of the build info.  If that fails the
    result is no exporter and the error "failed to create proxy sender: ..."
    around the sender's error; otherwise it is an exporter, without error,
    whose consumer holds the gauge, sum, histogram, exponential histogram
    and summary consumers, in this order, all on that one sender. *)
Theorem newMetricsExporter_with_createMetricsConsumer
    (settings : ExporterCreateSettings TelemetrySettings)
    (cfg : Config MetricsConfig) :
  hasMetricsEndpoint cfg = true ->
  (parseMetricsEndpoint cfg).2 = None ->
  let made :=
    NewSender (Endpoint (Metrics MetricsConfig cfg))
      (senderOptions (Version (BuildInfo_of TelemetrySettings settings))) in
  let ts := TelemetrySettings_of TelemetrySettings settings in
  let s := made.1 in
  newMetricsExporter MetricsConfig TelemetrySettings metricsConsumer
    hasMetricsEndpoint parseMetricsEndpoint settings
    (ThisConfig MetricsConfig cfg) createMetricsConsumer =
  match made.2 with
  | Some err => (None, Some ("failed to create proxy sender: " +:+ err))
  | None =>
      (Some {| consumer :=
                 Some (newMetricsConsumer
                         [ newGaugeConsumer s ts;
                           newSumConsumer s ts;
                           newHistogramConsumer
                             (newCumulativeHistogramDataPointConsumer s)
                             (newDeltaHistogramDataPointConsumer s)
                             s regularHistogram ts;
                           newHistogramConsumer
                             (newCumulativeHistogramDataPointConsumer s)
                             (newDeltaHistogramDataPointConsumer s)
                             s exponentialHistogram ts;
                           newSummaryConsumer s ts ]
                         s true (Metrics MetricsConfig cfg)) |},
       None)
  end.
Proof.
  intros Hhas Hparse made ts s.
  unfold newMetricsExporter. rewrite Hhas. simpl.
  destruct (parseMetricsEndpoint cfg) as [[host port] perr]. simpl in Hparse.
  subst perr. unfold createMetricsConsumer. fold made.
  destruct made as [s0 [err|]]; reflexivity.
Qed.

End Consumer.

(** A sender constructor that refuses every endpoint but [localhost:2878]. *)
Definition demoNewSender (endpoint : string) (options : list SenderOption)
    : string * error :=
  if String.eqb endpoint "localhost:2878" then (endpoint, None)
  else ("", Some "unreachable proxy").

Definition demoCreateMetricsConsumer
    : metricsConsumerCreator string unit (list string) :=
  createMetricsConsumer string unit (list string) id string demoNewSender
    unit string unit tt tt (fun _ => tt) (fun _ => tt)
    (fun _ _ => "gauge") (fun _ _ => "sum")
    (fun _ _ _ _ _ => "histogram") (fun _ _ => "summary")
    (fun consumers _ _ _ => consumers).

Definition demoHas (cfg : Config string) : bool :=
  negb (String.eqb (Metrics string cfg) "").

Definition demoParse (cfg : Config string) : string * Z * error :=
  if String.eqb (Metrics string cfg) "bad" then ("", 0%Z, Some "bad port")
  else (Metrics string cfg, 2878%Z, None).

Lemma refused_config_needs_no_creator_witness :
  newMetricsExporter string unit (list string) demoHas demoParse demoSettings
    (ThisConfig string (mkConfig string (NewID "tanzuobservability") "bad"))
    demoCreateMetricsConsumer =
  newMetricsExporter string unit (list string) demoHas demoParse demoSettings
    (ThisConfig string (mkConfig string (NewID "tanzuobservability") "bad"))
    (fun _ _ _ => (Some ["other"], None)).
Proof.
  apply (refused_config_needs_no_creator string unit (list string)
           demoHas demoParse demoSettings
           (ThisConfig string (mkConfig string (NewID "tanzuobservability") "bad"))
           demoCreateMetricsConsumer (fun _ _ _ => (Some ["other"], None))).
  right. discriminate.
Defined.

Lemma newMetricsExporter_with_createMetricsConsumer_witness :
  newMetricsExporter string unit (list string) demoHas demoParse demoSettings
    (ThisConfig string (mkConfig string (NewID "tanzuobservability") "elsewhere:1"))
    demoCreateMetricsConsumer =
  (None, Some "failed to create proxy sender: unreachable proxy").
Proof.
  apply (newMetricsExporter_with_createMetricsConsumer string unit (list string)
           id string demoNewSender unit string unit tt tt
           (fun _ => tt) (fun _ => tt)
           (fun _ _ => "gauge") (fun _ _ => "sum")
           (fun _ _ _ _ _ => "histogram") (fun _ _ => "summary")
           (fun consumers _ _ _ => consumers)
           demoHas demoParse demoSettings
           (mkConfig string (NewID "tanzuobservability") "elsewhere:1"));
    reflexivity.
Defined.

End tanzuobservabilityexporter.

(** ** processor/transformprocessor/config.go *)

Module transformprocessor.

(** Package [internal/common]: one context-grouped block of statements. *)
Module common.

Record ContextStatements := mkContextStatements {
  Context : string;
  Statements : list string
}.

End common.

Record SignalConfig := mkSignalConfig { Statements : list string }.

Record OTTLConfig := mkOTTLConfig {
  Traces : SignalConfig;
  Metrics : SignalConfig;
  Logs : SignalConfig
}.

(** [OTTL] is the embedded (squashed, deprecated) [OTTLConfig]; Go promotes
    its fields, so [c.Traces] reads [Traces (OTTL c)]. *)
Record Config := mkConfig {
  TraceStatements : list common.ContextStatements;
  MetricStatements : list common.ContextStatements;
  LogStatements : list common.ContextStatements;
  OTTL : OTTLConfig
}.

(** The three signals.  [traces] stands for the packages [internal/traces],
    [ottlspan] and for [NewTraceParserCollection]; [metrics] for
    [internal/metrics], [ottldatapoint] and [NewMetricParserCollection];
    [logs] for [internal/logs], [ottllogs] and [NewLogParserCollection]. *)
Inductive Signal := traces | metrics | logs.

(** [len(l) > 0]. *)
Definition nonempty {A : Type} (l : list A) : bool :=
  bool_decide (0 < length l).

Definition mixed_shapes_message : string :=
  "cannot use Traces, Metrics and/or Logs with TraceStatements, MetricStatements and/or LogStatements".

(** [if err != nil { return err }] followed by the rest of the function. *)
Notation "'check' e 'orelse' k" :=
  (match e with Some err => Some err | None => k end)
  (at level 10, e at level 200, k at level 200, only parsing).

Section Validate.

(** Packages [pkg/ottl], [pkg/ottl/contexts/...] and [internal/common],
    whose parsers [Validate] calls.  The no-op logger they are given is
    left out. *)
Variable Statement : Type.
Variable Consumer : Type.
Variable Parser : Type.
Variable ParserCollection : Type.
(** [traces.Functions()], [metrics.Functions()], [logs.Functions()]: the
    registered function names. *)
Variable Functions : Signal -> gset string.
(** [ottlspan.NewParser], [ottldatapoint.NewParser], [ottllogs.NewParser]. *)
Variable NewParser : Signal -> gset string -> Parser.
Variable ParseStatements : Parser -> list string -> list Statement * error.
(** [common.NewTraceParserCollection] and its two siblings. *)
Variable NewParserCollection : Signal -> gset string -> ParserCollection * error.
Variable ParseContextStatements :
  ParserCollection -> common.ContextStatements -> option Consumer * error.

(** The blocks [if len(c.X.Statements) > 0 { ... }]. *)
Definition parseLegacy (sig : Signal) (statements : list string) : error :=
  if nonempty statements then
    (ParseStatements (NewParser sig (Functions sig)) statements).2
  else None.

(** [for _, cs := range groups { _, err = pc.ParseContextStatements(cs); ... }] *)
Fixpoint parseEach (pc : ParserCollection)
    (groups : list common.ContextStatements) : error :=
  match groups with
  | [] => None
  | cs :: rest =>
      check (ParseContextStatements pc cs).2 orelse parseEach pc rest
  end.

(** The blocks [if len(c.XStatements) > 0 { ... }]. *)
Definition parseGrouped (sig : Signal)
    (groups : list common.ContextStatements) : error :=
  if nonempty groups then
    match NewParserCollection sig (Functions sig) with
    | (_, Some err) => Some err
    | (pc, None) => parseEach pc groups
    end
  else None.

Definition Validate (c : Config) : error :=
  if (nonempty (Statements (Traces (OTTL c))) ||
      nonempty (Statements (Metrics (OTTL c))) ||
      nonempty (Statements (Logs (OTTL c)))) &&
     (nonempty (TraceStatements c) ||
      nonempty (MetricStatements c) ||
      nonempty (LogStatements c))
  then Errorf mixed_shapes_message
  else
    check parseLegacy traces (Statements (Traces (OTTL c))) orelse
    check parseGrouped traces (TraceStatements c) orelse
    check parseLegacy metrics (Statements (Metrics (OTTL c))) orelse
    check parseGrouped metrics (MetricStatements c) orelse
    check parseLegacy logs (Statements (Logs (OTTL c))) orelse
    check parseGrouped logs (LogStatements c) orelse
    None.

(** *** Validation as a sequence of parse jobs *)

(** What [Validate] hands to the parsers, in the order it does so: each
    non-empty legacy list as a whole, and each context group one by one. *)
Inductive Job :=
  | JLegacy (sig : Signal) (statements : list string)
  | JGroup (sig : Signal) (cs : common.ContextStatements).

Definition legacyJobs (sig : Signal) (statements : list string) : list Job :=
  if nonempty statements then [JLegacy sig statements] else [].

Definition jobs (c : Config) : list Job :=
  legacyJobs traces (Statements (Traces (OTTL c))) ++
  map (JGroup traces) (TraceStatements c) ++
  legacyJobs metrics (Statements (Metrics (OTTL c))) ++
  map (JGroup metrics) (MetricStatements c) ++
  legacyJobs logs (Statements (Logs (OTTL c))) ++
  map (JGroup logs) (LogStatements c).

(** The error a job produces: the parser's, or the one from building the
    parser collection the group needs. *)
Definition run (j : Job) : error :=
  match j with
  | JLegacy sig statements =>
      (ParseStatements (NewParser sig (Functions sig)) statements).2
  | JGroup sig cs =>
      match NewParserCollection sig (Functions sig) with
      | (_, Some err) => Some err
      | (pc, None) => (ParseContextStatements pc cs).2
      end
  end.

Fixpoint first_error (js : list Job) : error :=
  match js with
  | [] => None
  | j :: rest => check run j orelse first_error rest
  end.

(** The statements a job carries and the signal it belongs to. *)
Definition job_statements (j : Job) : list string :=
  match j with
  | JLegacy _ statements => statements
  | JGroup _ cs => common.Statements cs
  end.

Definition job_signal (j : Job) : Signal :=
  match j with JLegacy sig _ => sig | JGroup sig _ => sig end.

(** The two shapes of configuration. *)
Definition uses_legacy (c : Config) : Prop :=
  Statements (Traces (OTTL c)) <> [] \/
  Statements (Metrics (OTTL c)) <> [] \/
  Statements (Logs (OTTL c)) <> [].

Definition uses_grouped (c : Config) : Prop :=
  TraceStatements c <> [] \/ MetricStatements c <> [] \/ LogStatements c <> [].

Definition legacy_of (sig : Signal) (c : Config) : list string :=
  match sig with
  | traces => Statements (Traces (OTTL c))
  | metrics => Statements (Metrics (OTTL c))
  | logs => Statements (Logs (OTTL c))
  end.

Definition grouped_of (sig : Signal) (c : Config)
    : list common.ContextStatements :=
  match sig with
  | traces => TraceStatements c
  | metrics => MetricStatements c
  | logs => LogStatements c
  end.

(** A statement of the configuration, for a signal: in its legacy list or in
    one of its context groups. *)
Definition stmt_in (c : Config) (sig : Signal) (stmt : string) : Prop :=
  stmt ∈ legacy_of sig c \/
  exists cs, cs ∈ grouped_of sig c /\ stmt ∈ common.Statements cs.

(** Modelled from the spec: what the statement parsers of [pkg/ottl] and
    [internal/common], which are parameters here, do with a function that is
    not registered.  Section 6 asks that the "engine must reject
    configuration referencing unknown function names"; nothing is assumed
    about the text of the error, nor about the parser collection being
    built.  [calls stmt f] reads "statement [stmt] references the function
    [f]". *)
Definition rejects_unregistered (calls : string -> string -> Prop) : Prop :=
  forall sig stmt f,
    calls stmt f -> f ∉ Functions sig ->
    (forall l, stmt ∈ l ->
       (ParseStatements (NewParser sig (Functions sig)) l).2 <> None) /\
    (forall pc cs,
       NewParserCollection sig (Functions sig) = (pc, None) ->
       stmt ∈ common.Statements cs ->
       (ParseContextStatements pc cs).2 <> None).

Lemma nonempty_true {A : Type} (l : list A) : nonempty l = true <-> l <> [].
Proof.
  unfold nonempty. rewrite bool_decide_eq_true.
  destruct l; simpl; split; try done; lia.
Qed.

Lemma nonempty_false {A : Type} (l : list A) : nonempty l = false <-> l = [].
Proof.
  unfold nonempty. rewrite bool_decide_eq_false.
  destruct l; simpl; split; try done; lia.
Qed.

Lemma guard_true (c : Config) :
  (nonempty (Statements (Traces (OTTL c))) ||
   nonempty (Statements (Metrics (OTTL c))) ||
   nonempty (Statements (Logs (OTTL c)))) &&
  (nonempty (TraceStatements c) ||
   nonempty (MetricStatements c) ||
   nonempty (LogStatements c)) = true <->
  uses_legacy c /\ uses_grouped c.
Proof.
  unfold uses_legacy, uses_grouped.
  rewrite andb_true_iff, !orb_true_iff, !nonempty_true. tauto.
Qed.

Lemma guard_false (c : Config) :
  (nonempty (Statements (Traces (OTTL c))) ||
   nonempty (Statements (Metrics (OTTL c))) ||
   nonempty (Statements (Logs (OTTL c)))) &&
  (nonempty (TraceStatements c) ||
   nonempty (MetricStatements c) ||
   nonempty (LogStatements c)) = false <->
  ~ (uses_legacy c /\ uses_grouped c).
Proof.
  rewrite <- guard_true. destruct (_ && _); split; done.
Qed.

Lemma first_error_app (js1 js2 : list Job) :
  first_error (js1 ++ js2) =
  check first_error js1 orelse first_error js2.
Proof.
  induction js1 as [|j js1 IH]; simpl; [reflexivity|].
  destruct (run j); [reflexivity | exact IH].
Qed.

Lemma parseLegacy_jobs (sig : Signal) (l : list string) :
  parseLegacy sig l = first_error (legacyJobs sig l).
Proof.
  unfold parseLegacy, legacyJobs. destruct (nonempty l); simpl; [|reflexivity].
  destruct (ParseStatements _ _).2; reflexivity.
Qed.

Lemma parseEach_jobs (sig : Signal) (pc : ParserCollection) (e : error)
    (l : list common.ContextStatements) :
  NewParserCollection sig (Functions sig) = (pc, None) ->
  parseEach pc l = first_error (map (JGroup sig) l).
Proof.
  intros Hpc. induction l as [|cs l IH]; simpl; [reflexivity|].
  rewrite Hpc. destruct (ParseContextStatements pc cs).2; [reflexivity | exact IH].
Qed.

Lemma parseGrouped_jobs (sig : Signal) (l : list common.ContextStatements) :
  parseGrouped sig l = first_error (map (JGroup sig) l).
Proof.
  unfold parseGrouped. destruct l as [|cs l]; [reflexivity|].
  change (nonempty (cs :: l)) with true. cbv iota.
  destruct (NewParserCollection sig (Functions sig)) as [pc [err|]] eqn:Hpc.
  - simpl. rewrite Hpc. reflexivity.
  - apply (parseEach_jobs sig pc None). exact Hpc.
Qed.

(** [Validate] is the guard against mixed shapes followed by the first
    error among the parse jobs. *)
Lemma Validate_jobs (c : Config) :
  Validate c =
  if (nonempty (Statements (Traces (OTTL c))) ||
      nonempty (Statements (Metrics (OTTL c))) ||
      nonempty (Statements (Logs (OTTL c)))) &&
     (nonempty (TraceStatements c) ||
      nonempty (MetricStatements c) ||
      nonempty (LogStatements c))
  then Some mixed_shapes_message
  else first_error (jobs c).
Proof.
  unfold Validate, jobs. destruct (_ && _); [reflexivity|].
  rewrite !first_error_app, !parseLegacy_jobs, !parseGrouped_jobs.
  repeat match goal with |- context [first_error ?l] =>
    destruct (first_error l); try reflexivity end.
Qed.

Lemma first_error_None (js : list Job) :
  first_error js = None <-> forall j, j ∈ js -> run j = None.
Proof.
  induction js as [|j js IH]; simpl.
  - split; [intros _ j Hj; inversion Hj | reflexivity].
  - destruct (run j) eqn:Hr.
    + split; [discriminate|]. intros H.
      rewrite <- Hr. apply H. left.
    + rewrite IH. split.
      * intros H j' Hj'. inversion Hj'; subst; [exact Hr | apply H; assumption].
      * intros H j' Hj'. apply H. right. exact Hj'.
Qed.

Lemma first_error_at (pre post : list Job) (j : Job) :
  (forall j', j' ∈ pre -> run j' = None) ->
  first_error (pre ++ j :: post) = check run j orelse first_error post.
Proof.
  intros Hpre. rewrite first_error_app.
  apply first_error_None in Hpre. rewrite Hpre. reflexivity.
Qed.

Lemma stmt_in_job (c : Config) (sig : Signal) (stmt : string) :
  stmt_in c sig stmt ->
  exists j, j ∈ jobs c /\ job_signal j = sig /\ stmt ∈ job_statements j.
Proof.
  intros [Hl | (cs & Hcs & Hs)].
  - exists (JLegacy sig (legacy_of sig c)). split; [|split; [reflexivity|exact Hl]].
    assert (Hne : nonempty (legacy_of sig c) = true).
    { apply nonempty_true. intros E. rewrite E in Hl. inversion Hl. }
    assert (Hj : JLegacy sig (legacy_of sig c) ∈ legacyJobs sig (legacy_of sig c)).
    { unfold legacyJobs. rewrite Hne. left. }
    unfold jobs. destruct sig; simpl in Hj; rewrite !elem_of_app; tauto.
  - exists (JGroup sig cs). split; [|split; [reflexivity|exact Hs]].
    assert (Hm : JGroup sig cs ∈ map (JGroup sig) (grouped_of sig c)).
    { apply list_elem_of_fmap. exists cs. split; [reflexivity|exact Hcs]. }
    unfold jobs. destruct sig; simpl in Hm; rewrite !elem_of_app; tauto.
Qed.

Lemma Validate_mixed (c : Config) :
  uses_legacy c /\ uses_grouped c -> Validate c = Some mixed_shapes_message.
Proof.
  intros H. rewrite Validate_jobs. apply guard_true in H. rewrite H. reflexivity.
Qed.

Lemma Validate_one_shape (c : Config) :
  ~ (uses_legacy c /\ uses_grouped c) -> Validate c = first_error (jobs c).
Proof.
  intros H. rewrite Validate_jobs. apply guard_false in H. rewrite H. reflexivity.
Qed.

Lemma Validate_None (c : Config) :
  Validate c = None <->
  ~ (uses_legacy c /\ uses_grouped c) /\
  (forall j, j ∈ jobs c -> run j = None).
Proof.
  rewrite <- first_error_None, <- guard_false, Validate_jobs.
  destruct (_ && _).
  - split; [discriminate | intros [H _]; discriminate H].
  - split; [intros H; split; [reflexivity | exact H] | intros [_ H]; exact H].
Qed.

(** C1 (amended). A legacy list for any signal together with a context
    group list for any signal, the same or another, makes [Validate] return
    the "cannot use ..." error: the two shapes exclude each other across the
    whole configuration.  A configuration that keeps to one shape passes
    this check, and its result is that of the parsers. *)
Theorem mixed_shapes_rejected (c : Config) :
  (uses_legacy c /\ uses_grouped c -> Validate c = Some mixed_shapes_message) /\
  (~ (uses_legacy c /\ uses_grouped c) -> Validate c = first_error (jobs c)).
Proof.
  split; [apply Validate_mixed | apply Validate_one_shape].
Qed.

(** C2 (amended). [Validate] returns nil exactly when the configuration does
    not combine the two shapes and every parse job succeeds: each non-empty
    legacy list through [ParseStatements], and each context group through
    [ParseContextStatements] of a parser collection that could be built.
    In every other case it returns an error.  [Validate] has the
    configuration as its only input and an error as its only output: it
    takes no telemetry and keeps none of the parsed statements. *)
Theorem Validate_nil_iff (c : Config) :
  (Validate c = None <->
   ~ (uses_legacy c /\ uses_grouped c) /\
   (forall j, j ∈ jobs c -> run j = None)) /\
  (Validate c <> None <->
   (uses_legacy c /\ uses_grouped c) \/
   (exists j, j ∈ jobs c /\ run j <> None)).
Proof.
  split; [apply Validate_None|].
  rewrite Validate_jobs. destruct (_ && _) eqn:Hg.
  - apply guard_true in Hg. split; [intros _; left; exact Hg | discriminate].
  - apply guard_false in Hg. split.
    + intros Hne. right.
      induction (jobs c) as [|j js IH]; simpl in Hne; [contradiction|].
      destruct (run j) eqn:Hr.
      * exists j. split; [left | rewrite Hr; discriminate].
      * destruct (IH Hne) as (j' & Hin & Hj'). exists j'. split; [right|]; assumption.
    + intros [Hmix | (j & Hin & Hj)] Hnone; [contradiction|].
      apply Hj. apply (proj1 (first_error_None (jobs c)) Hnone j Hin).
Qed.

Lemma unregistered_job_fails (calls : string -> string -> Prop) (j : Job)
    (stmt f : string) :
  rejects_unregistered calls ->
  calls stmt f ->
  f ∉ Functions (job_signal j) ->
  stmt ∈ job_statements j ->
  run j <> None.
Proof.
  intros Hrej Hcalls Hf Hs.
  destruct (Hrej (job_signal j) stmt f Hcalls Hf) as [Hlegacy Hgroup].
  destruct j as [sig l | sig cs]; simpl in *.
  - apply Hlegacy, Hs.
  - destruct (NewParserCollection sig (Functions sig)) as [pc [err|]] eqn:Hpc;
      [discriminate|].
    apply (Hgroup pc cs eq_refl Hs).
Qed.

Lemma first_error_split (js : list Job) :
  (exists j, j ∈ js /\ run j <> None) ->
  exists pre j post,
    js = pre ++ j :: post /\
    (forall j', j' ∈ pre -> run j' = None) /\
    run j <> None /\
    first_error js = run j.
Proof.
  induction js as [|j0 js IH]; intros (j & Hin & Hj); [inversion Hin|].
  destruct (run j0) as [e|] eqn:Hr0.
  - exists [], j0, js. repeat split.
    + intros j' Hj'. inversion Hj'.
    + rewrite Hr0. discriminate.
    + simpl. rewrite Hr0. reflexivity.
  - destruct IH as (pre & j1 & post & Hjs & Hpre & Hj1 & Hfirst).
    { exists j. split; [|exact Hj].
      apply elem_of_cons in Hin as [-> | Hin]; [congruence | exact Hin]. }
    exists (j0 :: pre), j1, post. repeat split.
    + rewrite Hjs. reflexivity.
    + intros j' Hj'. apply elem_of_cons in Hj' as [-> | Hj'];
        [exact Hr0 | apply Hpre, Hj'].
    + exact Hj1.
    + simpl. rewrite Hr0. exact Hfirst.
Qed.


(** *** Further properties of [Validate] *)

(** X1. [Validate] stops at the first failure: in a configuration that keeps
    to one shape, the error of the first parse job that fails, in the order
    Traces, TraceStatements, Metrics, MetricStatements, Logs, LogStatements,
    is returned as the parser gave it, whatever the jobs after it would
    say. *)
Theorem Validate_reports_first_failure (c : Config) (pre post : list Job)
    (j : Job) (e : string) :
  ~ (uses_legacy c /\ uses_grouped c) ->
  jobs c = pre ++ j :: post ->
  (forall j', j' ∈ pre -> run j' = None) ->
  run j = Some e ->
  Validate c = Some e.
Proof.
  intros Hshape Hjobs Hpre Hrun.
  rewrite (Validate_one_shape c Hshape), Hjobs,
    (first_error_at pre post j Hpre), Hrun.
  reflexivity.
Qed.

Lemma uses_grouped_perm (c c' : Config) :
  TraceStatements c' ≡ₚ TraceStatements c ->
  MetricStatements c' ≡ₚ MetricStatements c ->
  LogStatements c' ≡ₚ LogStatements c ->
  uses_grouped c' -> uses_grouped c.
Proof.
  intros Ht Hm Hl [H|[H|H]]; [left | right; left | right; right];
    intros E; apply H; rewrite E in *; apply Permutation_nil_r; assumption.
Qed.

Lemma jobs_perm (c c' : Config) (j : Job) :
  OTTL c' = OTTL c ->
  TraceStatements c' ≡ₚ TraceStatements c ->
  MetricStatements c' ≡ₚ MetricStatements c ->
  LogStatements c' ≡ₚ LogStatements c ->
  j ∈ jobs c' -> j ∈ jobs c.
Proof.
  intros Ho Ht Hm Hl. unfold jobs. rewrite Ho, !elem_of_app.
  rewrite Ht, Hm, Hl. tauto.
Qed.

(** X2. Whether a configuration is accepted does not depend on the order in
    which its context groups are listed: reordering the groups of
    TraceStatements, MetricStatements and LogStatements changes at most
    which error is reported first. *)
Theorem Validate_acceptance_order_insensitive (c c' : Config) :
  OTTL c' = OTTL c ->
  TraceStatements c' ≡ₚ TraceStatements c ->
  MetricStatements c' ≡ₚ MetricStatements c ->
  LogStatements c' ≡ₚ LogStatements c ->
  (Validate c' = None <-> Validate c = None).
Proof.
  intros Ho Ht Hm Hl. rewrite !Validate_None.
  assert (Hl' : uses_legacy c' <-> uses_legacy c).
  { unfold uses_legacy. rewrite Ho. reflexivity. }
  split; intros [Hshape Hall]; split.
  - intros [H1 H2]. apply Hshape. split; [apply Hl'; exact H1|].
    apply (uses_grouped_perm c' c); [symmetry .. |]; assumption.
  - intros j Hj. apply Hall.
    apply (jobs_perm c' c); [symmetry; exact Ho | symmetry .. |]; assumption.
  - intros [H1 H2]. apply Hshape. split; [apply Hl'; exact H1|].
    apply (uses_grouped_perm c c'); assumption.
  - intros j Hj. apply Hall. apply (jobs_perm c c'); assumption.
Qed.

Lemma legacyJobs_elem (sig : Signal) (l : list string) (j : Job) :
  j ∈ legacyJobs sig l -> j = JLegacy sig l /\ l <> [].
Proof.
  unfold legacyJobs. destruct (nonempty l) eqn:E; intros H; [|inversion H].
  apply list_elem_of_singleton in H. split; [exact H | apply nonempty_true, E].
Qed.

Lemma groupJobs_elem (sig : Signal) (l : list common.ContextStatements)
    (j : Job) :
  j ∈ map (JGroup sig) l -> job_signal j = sig /\ l <> [].
Proof.
  intros H. apply list_elem_of_fmap in H as (cs & -> & Hcs).
  split; [reflexivity|]. intros E. rewrite E in Hcs. inversion Hcs.
Qed.

(** The part of a configuration that belongs to one signal. *)
Definition only (sig : Signal) (c : Config) : Config :=
  {| TraceStatements := match sig with traces => TraceStatements c | _ => [] end;
     MetricStatements := match sig with metrics => MetricStatements c | _ => [] end;
     LogStatements := match sig with logs => LogStatements c | _ => [] end;
     OTTL :=
       {| Traces := match sig with
                    | traces => Traces (OTTL c)
                    | _ => {| Statements := [] |}
                    end;
          Metrics := match sig with
                     | metrics => Metrics (OTTL c)
                     | _ => {| Statements := [] |}
                     end;
          Logs := match sig with
                  | logs => Logs (OTTL c)
                  | _ => {| Statements := [] |}
                  end |} |}.

Lemma jobs_only (c : Config) (j : Job) :
  j ∈ jobs c <-> exists sig, j ∈ jobs (only sig c).
Proof.
  split.
  - unfold jobs. rewrite !elem_of_app. intros H.
    assert (Hsig : j ∈ jobs (only (job_signal j) c)).
    { unfold jobs. rewrite !elem_of_app.
      destruct H as [H|[H|[H|[H|[H|H]]]]].
      - pose proof (legacyJobs_elem _ _ _ H) as [-> _]. left. exact H.
      - pose proof (groupJobs_elem _ _ _ H) as [-> _]. right. left. exact H.
      - pose proof (legacyJobs_elem _ _ _ H) as [-> _]. do 2 right. left. exact H.
      - pose proof (groupJobs_elem _ _ _ H) as [-> _]. do 3 right. left. exact H.
      - pose proof (legacyJobs_elem _ _ _ H) as [-> _]. do 4 right. left. exact H.
      - pose proof (groupJobs_elem _ _ _ H) as [-> _]. do 5 right. exact H. }
    exists (job_signal j). exact Hsig.
  - intros [sig H]. revert H. unfold jobs. rewrite !elem_of_app.
    destruct sig; simpl; intros [H|[H|[H|[H|[H|H]]]]];
      try (inversion H; fail); tauto.
Qed.

Lemma only_shape (c : Config) (sig : Signal) :
  uses_legacy (only sig c) /\ uses_grouped (only sig c) ->
  uses_legacy c /\ uses_grouped c.
Proof.
  unfold uses_legacy, uses_grouped.
  destruct sig; simpl; intros [[H|[H|H]] [G|[G|G]]];
    try (exfalso; apply H; reflexivity);
    try (exfalso; apply G; reflexivity); tauto.
Qed.

(** X11. In a configuration that keeps to one shape the signals are
    validated independently: the whole is accepted exactly when its trace
    part, its metric part and its log part are each accepted on their
    own. *)
Theorem Validate_accepts_per_signal (c : Config) :
  ~ (uses_legacy c /\ uses_grouped c) ->
  (Validate c = None <-> forall sig, Validate (only sig c) = None).
Proof.
  intros Hshape. split.
  - intros Hc sig. apply Validate_None in Hc as [_ Hall].
    apply Validate_None. split.
    + intros H. apply Hshape, (only_shape c sig), H.
    + intros j Hj. apply Hall, jobs_only. exists sig. exact Hj.
  - intros Hall. apply Validate_None. split; [exact Hshape|].
    intros j Hj. apply jobs_only in Hj as [sig Hj].
    specialize (Hall sig). apply Validate_None in Hall as [_ Hall].
    apply Hall, Hj.
Qed.

(** The signals a configuration has statements for. *)
Definition uses_signal (c : Config) (sig : Signal) : Prop :=
  legacy_of sig c <> [] \/ grouped_of sig c <> [].

Lemma job_uses_signal (c : Config) (j : Job) :
  j ∈ jobs c -> uses_signal c (job_signal j).
Proof.
  unfold jobs, uses_signal. rewrite !elem_of_app.
  intros [H|[H|[H|[H|[H|H]]]]].
  - apply legacyJobs_elem in H as [-> Hne]. left. exact Hne.
  - apply groupJobs_elem in H as [-> Hne]. right. exact Hne.
  - apply legacyJobs_elem in H as [-> Hne]. left. exact Hne.
  - apply groupJobs_elem in H as [-> Hne]. right. exact Hne.
  - apply legacyJobs_elem in H as [-> Hne]. left. exact Hne.
  - apply groupJobs_elem in H as [-> Hne]. right. exact Hne.
Qed.

End Validate.

Arguments Validate {_ _ _ _} _ _ _ _ _ _.
Arguments run {_ _ _ _} _ _ _ _ _ _.
Arguments first_error {_ _ _ _} _ _ _ _ _ _.
Arguments rejects_unregistered {_ _ _ _} _ _ _ _ _ _.

Section Isolation.

Variable Statement : Type.
Variable Consumer : Type.
Variable Parser : Type.
Variable ParserCollection : Type.
Variable ParseStatements : Parser -> list string -> list Statement * error.
Variable ParseContextStatements :
  ParserCollection -> common.ContextStatements -> option Consumer * error.
(** Two sets of per-signal packages. *)
Variables Functions Functions' : Signal -> gset string.
Variables NewParser NewParser' : Signal -> gset string -> Parser.
Variables NewParserCollection NewParserCollection' :
  Signal -> gset string -> ParserCollection * error.


End Isolation.


(** *** A parser double to run [Validate] on concrete configurations

    The statement parsers are other packages.  The double below stands for
    them on a handful of statements: it accepts exactly the statements listed
    in [knownStatements], each in the context the collector accepts it in,
    rejects every other text, and answers an unregistered editor name with
    the error "undefined function <name>".  It is used for the concrete
    instances only; every theorem is stated for arbitrary parsers. *)

(** The editor name of a statement: the text before the first opening
    parenthesis. *)
Fixpoint editor_of (stmt : string) : string :=
  match stmt with
  | EmptyString => EmptyString
  | String a rest =>
      if decide (a = Ascii.ascii_of_nat 40) then EmptyString
      else String a (editor_of rest)
  end.

Definition demoCalls (stmt f : string) : Prop := f = editor_of stmt.

(** A few of the registered function names of each signal. *)
Definition demoFunctions (sig : Signal) : gset string :=
  match sig with
  | traces => {[ "set"; "delete_key"; "truncate_all" ]}
  | metrics => {[ "set"; "delete_key"; "convert_sum_to_gauge" ]}
  | logs => {[ "set"; "delete_key" ]}
  end.

(** The context a legacy list is parsed in, and the contexts a parser
    collection knows. *)
Definition legacyContext (sig : Signal) : string :=
  match sig with
  | traces => "span"
  | metrics => "datapoint"
  | logs => "log"
  end.

Definition collectionContexts (sig : Signal) : list string :=
  match sig with
  | traces => ["resource"; "scope"; "span"; "spanevent"]
  | metrics => ["resource"; "scope"; "metric"; "datapoint"]
  | logs => ["resource"; "scope"; "log"]
  end.

(** The statements the double accepts, by context. *)
Definition knownStatements (ctx : string) : list string :=
  if decide (ctx = "span") then ["set(name, 1)"; "set(name, 2)"]
  else if decide (ctx = "datapoint") then ["set(metric.name, 2)"]
  else [].

(** A parser is its context and its registry; a parser collection is its
    signal and its registry. *)
Definition demoParser : Type := string * gset string.
Definition demoCollection : Type := Signal * gset string.

Definition demoNewParser (sig : Signal) (fns : gset string) : demoParser :=
  (legacyContext sig, fns).

Definition demoParseOne (p : demoParser) (stmt : string) : error :=
  if decide (editor_of stmt ∈ p.2) then
    if bool_decide (stmt ∈ knownStatements p.1) then None
    else Some ("unable to parse OTTL statement: " +:+ stmt)
  else Some ("undefined function " +:+ editor_of stmt).

(** Errors of one list are joined. *)
Definition appendErr (e1 e2 : error) : error :=
  match e1, e2 with
  | None, e => e
  | Some a, None => Some a
  | Some a, Some b => Some (a +:+ "; " +:+ b)
  end.

Definition collectErrs (p : demoParser) (l : list string) : error :=
  foldr (fun stmt acc => appendErr (demoParseOne p stmt) acc) None l.

Definition demoParseStatements (p : demoParser) (l : list string)
    : list string * error :=
  match collectErrs p l with
  | None => (l, None)
  | Some msg => ([], Some msg)
  end.

Definition demoNewParserCollection (sig : Signal) (fns : gset string)
    : demoCollection * error := ((sig, fns), None).

Definition demoParseContextStatements (pc : demoCollection)
    (cs : common.ContextStatements) : option unit * error :=
  if bool_decide (common.Context cs ∈ collectionContexts pc.1) then
    match demoParseStatements (common.Context cs, pc.2) (common.Statements cs) with
    | (_, Some msg) => (None, Some msg)
    | (_, None) => (Some tt, None)
    end
  else (None, Some ("unknown context " +:+ common.Context cs)).

Definition demoValidate : Config -> error :=
  Validate demoFunctions demoNewParser demoParseStatements
    demoNewParserCollection demoParseContextStatements.

Definition demoRun : Job -> error :=
  run demoFunctions demoNewParser demoParseStatements
    demoNewParserCollection demoParseContextStatements.

(** Legacy trace statements next to a metric context group. *)
Definition crossSignalConfig : Config :=
  {| TraceStatements := [];
     MetricStatements :=
       [ {| common.Context := "datapoint";
            common.Statements := ["set(metric.name, 2)"] |} ];
     LogStatements := [];
     OTTL := {| Traces := {| Statements := ["set(name, 1)"] |};
                Metrics := {| Statements := [] |};
                Logs := {| Statements := [] |} |} |}.

(** Both shapes for the trace signal. *)
Definition sameSignalConfig : Config :=
  {| TraceStatements :=
       [ {| common.Context := "span";
            common.Statements := ["set(name, 2)"] |} ];
     MetricStatements := [];
     LogStatements := [];
     OTTL := {| Traces := {| Statements := ["set(name, 1)"] |};
                Metrics := {| Statements := [] |};
                Logs := {| Statements := [] |} |} |}.

(** One legacy list whose second statement calls an unknown function. *)
Definition unknownFunctionConfig : Config :=
  {| TraceStatements := [];
     MetricStatements := [];
     LogStatements := [];
     OTTL := {| Traces := {| Statements := ["set(name, 1)"; "nosuch(name)"] |};
                Metrics := {| Statements := [] |};
                Logs := {| Statements := [] |} |} |}.

(** The same unknown function in a configuration that mixes the shapes. *)
Definition unknownFunctionMixedConfig : Config :=
  {| TraceStatements :=
       [ {| common.Context := "span";
            common.Statements := ["nosuch(name)"] |} ];
     MetricStatements := [];
     LogStatements := [];
     OTTL := {| Traces := {| Statements := ["set(name, 1)"] |};
                Metrics := {| Statements := [] |};
                Logs := {| Statements := [] |} |} |}.

Lemma collectErrs_fails (p : demoParser) (l : list string) (stmt : string) :
  stmt ∈ l -> demoParseOne p stmt <> None -> collectErrs p l <> None.
Proof.
  intros Hin Hone. induction l as [|s l IH]; [inversion Hin|].
  unfold collectErrs. simpl. fold (collectErrs p l).
  apply elem_of_cons in Hin as [<- | Hin].
  - destruct (demoParseOne p stmt) as [m|]; [|contradiction].
    destruct (collectErrs p l); discriminate.
  - specialize (IH Hin). destruct (collectErrs p l) as [m|]; [|contradiction].
    destruct (demoParseOne p s); discriminate.
Qed.

Lemma demoParseOne_unregistered (p : demoParser) (stmt : string) :
  editor_of stmt ∉ p.2 -> demoParseOne p stmt <> None.
Proof.
  intros Hf. unfold demoParseOne.
  destruct (decide (editor_of stmt ∈ p.2)); [contradiction | discriminate].
Qed.

Lemma demoParseStatements_fails (p : demoParser) (l : list string)
    (stmt : string) :
  stmt ∈ l -> editor_of stmt ∉ p.2 -> (demoParseStatements p l).2 <> None.
Proof.
  intros Hin Hf.
  pose proof (collectErrs_fails p l stmt Hin (demoParseOne_unregistered p stmt Hf))
    as Hc.
  unfold demoParseStatements. destruct (collectErrs p l); [discriminate | contradiction].
Qed.

Lemma demo_rejects_unregistered :
  rejects_unregistered demoFunctions demoNewParser demoParseStatements
    demoNewParserCollection demoParseContextStatements demoCalls.
Proof.
  intros sig stmt f -> Hf. split.
  - intros l Hin.
    apply (demoParseStatements_fails (demoNewParser sig (demoFunctions sig))
             l stmt Hin Hf).
  - intros pc cs Hpc Hin. inversion Hpc; subst pc.
    unfold demoParseContextStatements. cbn [fst snd].
    destruct (bool_decide _); [|discriminate].
    pose proof (demoParseStatements_fails (common.Context cs, demoFunctions sig)
                  (common.Statements cs) stmt Hin Hf) as Hp.
    destruct (demoParseStatements _ _) as [ok [e|]]; [discriminate | contradiction].
Qed.

Lemma mixed_shapes_rejected_witness :
  demoValidate sameSignalConfig = Some mixed_shapes_message.
Proof.
  apply (proj1 (mixed_shapes_rejected _ _ _ _ demoFunctions demoNewParser
                  demoParseStatements demoNewParserCollection
                  demoParseContextStatements sameSignalConfig)).
  split; left; discriminate.
Defined.

(** C1 as first stated fails: legacy statements for traces only, a context
    group for metrics only, every parse job succeeds, and the configuration
    is rejected all the same. *)
Lemma cross_signal_mix_rejected :
  (legacy_of traces crossSignalConfig <> [] /\
   grouped_of traces crossSignalConfig = []) /\
  (legacy_of metrics crossSignalConfig = [] /\
   grouped_of metrics crossSignalConfig <> []) /\
  (legacy_of logs crossSignalConfig = [] /\
   grouped_of logs crossSignalConfig = []) /\
  Forall (fun j => demoRun j = None) (jobs crossSignalConfig) /\
  demoValidate crossSignalConfig = Some mixed_shapes_message.
Proof.
  repeat split; try discriminate.
  - repeat constructor.
Qed.

(** C2 as first stated fails: every statement of every list parses, and
    [Validate] still returns an error. *)
Lemma parsed_statements_mixed_rejected :
  legacy_of traces sameSignalConfig = ["set(name, 1)"] /\
  grouped_of traces sameSignalConfig =
    [ {| common.Context := "span"; common.Statements := ["set(name, 2)"] |} ] /\
  legacy_of metrics sameSignalConfig = [] /\
  grouped_of metrics sameSignalConfig = [] /\
  legacy_of logs sameSignalConfig = [] /\
  grouped_of logs sameSignalConfig = [] /\
  Forall (fun j => demoRun j = None) (jobs sameSignalConfig) /\
  demoValidate sameSignalConfig = Some mixed_shapes_message.
Proof.
  repeat split; repeat constructor.
Qed.



(** *** [Validate] over parsers that may keep state

    The same function once more, with a world [W] threaded through every
    call into the parser packages: whatever those packages could remember
    between two calls.  It serves to show when [Validate] calls into those
    packages and when it does not, and that over parsers that keep no state
    it is the function above. *)

Section Worlds.

Variable W : Type.
Variable Statement : Type.
Variable Consumer : Type.
Variable Parser : Type.
Variable ParserCollection : Type.
Variable FunctionsW : Signal -> W -> gset string * W.
Variable NewParserW : Signal -> gset string -> W -> Parser * W.
Variable ParseStatementsW :
  Parser -> list string -> W -> (list Statement * error) * W.
Variable NewParserCollectionW :
  Signal -> gset string -> W -> (ParserCollection * error) * W.
Variable ParseContextStatementsW :
  ParserCollection -> common.ContextStatements -> W ->
  (option Consumer * error) * W.

Definition M (A : Type) : Type := W -> A * W.

Definition ret {A : Type} (a : A) : M A := fun w => (a, w).

Definition bind {A B : Type} (m : M A) (k : A -> M B) : M B :=
  fun w => let (a, w') := m w in k a w'.

Notation "x <- m ;; k" := (bind m (fun x => k))
  (at level 100, m at next level, right associativity, only parsing).

(** [if err != nil { return err }] after an effectful step. *)
Definition orelseM (m : M error) (k : M error) : M error :=
  e <- m ;; match e with Some err => ret (Some err) | None => k end.

Definition parseLegacyW (sig : Signal) (statements : list string) : M error :=
  if nonempty statements then
    fns <- FunctionsW sig ;;
    p <- NewParserW sig fns ;;
    r <- ParseStatementsW p statements ;;
    ret r.2
  else ret None.

Fixpoint parseEachW (pc : ParserCollection)
    (groups : list common.ContextStatements) : M error :=
  match groups with
  | [] => ret None
  | cs :: rest =>
      orelseM (r <- ParseContextStatementsW pc cs ;; ret r.2)
              (parseEachW pc rest)
  end.

Definition parseGroupedW (sig : Signal)
    (groups : list common.ContextStatements) : M error :=
  if nonempty groups then
    fns <- FunctionsW sig ;;
    r <- NewParserCollectionW sig fns ;;
    match r with
    | (_, Some err) => ret (Some err)
    | (pc, None) => parseEachW pc groups
    end
  else ret None.

Definition ValidateW (c : Config) : M error :=
  if (nonempty (Statements (Traces (OTTL c))) ||
      nonempty (Statements (Metrics (OTTL c))) ||
      nonempty (Statements (Logs (OTTL c)))) &&
     (nonempty (TraceStatements c) ||
      nonempty (MetricStatements c) ||
      nonempty (LogStatements c))
  then ret (Errorf mixed_shapes_message)
  else
    orelseM (parseLegacyW traces (Statements (Traces (OTTL c))))
   (orelseM (parseGroupedW traces (TraceStatements c))
   (orelseM (parseLegacyW metrics (Statements (Metrics (OTTL c))))
   (orelseM (parseGroupedW metrics (MetricStatements c))
   (orelseM (parseLegacyW logs (Statements (Logs (OTTL c))))
   (orelseM (parseGroupedW logs (LogStatements c))
   (ret None)))))).

(** Modelled from the spec: the parser packages, which are parameters
    here, answer the same whatever the world.  Section 8 states that
    "repeated parsing of the same string is deterministic" and section 5
    that the function registry is read-only once populated. *)
Definition stateless_parsers : Prop :=
  (forall sig w w', (FunctionsW sig w).1 = (FunctionsW sig w').1) /\
  (forall sig fns w w', (NewParserW sig fns w).1 = (NewParserW sig fns w').1) /\
  (forall p l w w', (ParseStatementsW p l w).1 = (ParseStatementsW p l w').1) /\
  (forall sig fns w w',
     (NewParserCollectionW sig fns w).1 = (NewParserCollectionW sig fns w').1) /\
  (forall pc cs w w',
     (ParseContextStatementsW pc cs w).1 = (ParseContextStatementsW pc cs w').1).

Lemma orelseM_fst (m k : M error) (e0 k0 : error) :
  (forall w, (m w).1 = e0) -> (forall w, (k w).1 = k0) ->
  forall w, (orelseM m k w).1 = check e0 orelse k0.
Proof.
  intros Hm Hk w. unfold orelseM, bind, ret.
  specialize (Hm w). destruct (m w) as [e w']. simpl in Hm. subst e0.
  destruct e; [reflexivity | apply Hk].
Qed.

Section Agreement.

(** Stateless parsers, given by their answers in the world [w0]. *)
Variable w0 : W.
Hypothesis Hstateless : stateless_parsers.

Definition FunctionsAt (sig : Signal) : gset string := (FunctionsW sig w0).1.
Definition NewParserAt (sig : Signal) (fns : gset string) : Parser :=
  (NewParserW sig fns w0).1.
Definition ParseStatementsAt (p : Parser) (l : list string)
    : list Statement * error := (ParseStatementsW p l w0).1.
Definition NewParserCollectionAt (sig : Signal) (fns : gset string)
    : ParserCollection * error := (NewParserCollectionW sig fns w0).1.
Definition ParseContextStatementsAt (pc : ParserCollection)
    (cs : common.ContextStatements) : option Consumer * error :=
  (ParseContextStatementsW pc cs w0).1.

Lemma parseLegacyW_fst (sig : Signal) (l : list string) (w : W) :
  (parseLegacyW sig l w).1 =
  parseLegacy Statement Parser FunctionsAt NewParserAt ParseStatementsAt sig l.
Proof using Hstateless.
  destruct Hstateless as (HF & HP & HS & _).
  unfold parseLegacyW, parseLegacy. destruct (nonempty l); [|reflexivity].
  unfold bind, ret, ParseStatementsAt, NewParserAt, FunctionsAt.
  rewrite <- (HF sig w w0).
  destruct (FunctionsW sig w) as [fns w1]. simpl.
  rewrite <- (HP sig fns w1 w0).
  destruct (NewParserW sig fns w1) as [p w2]. simpl.
  rewrite <- (HS p l w2 w0).
  destruct (ParseStatementsW p l w2) as [r w3]. reflexivity.
Qed.

Lemma parseEachW_fst (pc : ParserCollection)
    (l : list common.ContextStatements) (w : W) :
  (parseEachW pc l w).1 =
  parseEach Consumer ParserCollection ParseContextStatementsAt pc l.
Proof using Hstateless.
  destruct Hstateless as (_ & _ & _ & _ & HC).
  revert w. induction l as [|cs l IH]; intros w; [reflexivity|].
  simpl. apply orelseM_fst; [|exact IH].
  intros w'. unfold bind, ret, ParseContextStatementsAt.
  rewrite <- (HC pc cs w' w0).
  destruct (ParseContextStatementsW pc cs w') as [r w'']. reflexivity.
Qed.

Lemma parseGroupedW_fst (sig : Signal)
    (l : list common.ContextStatements) (w : W) :
  (parseGroupedW sig l w).1 =
  parseGrouped Consumer ParserCollection FunctionsAt NewParserCollectionAt
    ParseContextStatementsAt sig l.
Proof using Hstateless.
  destruct Hstateless as (HF & _ & _ & HN & _).
  unfold parseGroupedW, parseGrouped. destruct (nonempty l); [|reflexivity].
  unfold bind, ret, NewParserCollectionAt, FunctionsAt.
  rewrite <- (HF sig w w0).
  destruct (FunctionsW sig w) as [fns w1]. simpl.
  rewrite <- (HN sig fns w1 w0).
  destruct (NewParserCollectionW sig fns w1) as [[pc [err|]] w2]; simpl.
  - reflexivity.
  - apply parseEachW_fst.
Qed.

(** In every world the stateful [ValidateW] answers what the pure
    [Validate] answers over the same parsers. *)
Lemma ValidateW_fst (c : Config) (w : W) :
  (ValidateW c w).1 =
  Validate FunctionsAt NewParserAt ParseStatementsAt NewParserCollectionAt
    ParseContextStatementsAt c.
Proof using Hstateless.
  unfold ValidateW, Validate. destruct (_ && _); [reflexivity|].
  repeat (apply orelseM_fst;
          [ first [ apply parseLegacyW_fst | apply parseGroupedW_fst ] | intros ]).
  reflexivity.
Qed.

End Agreement.

Lemma not_uses_legacy (c : Config) :
  ~ uses_legacy c ->
  Statements (Traces (OTTL c)) = [] /\
  Statements (Metrics (OTTL c)) = [] /\
  Statements (Logs (OTTL c)) = [].
Proof.
  unfold uses_legacy. intros H.
  destruct (Statements (Traces (OTTL c))); [|exfalso; apply H; left; discriminate].
  destruct (Statements (Metrics (OTTL c)));
    [|exfalso; apply H; right; left; discriminate].
  destruct (Statements (Logs (OTTL c)));
    [|exfalso; apply H; right; right; discriminate].
  done.
Qed.

Lemma not_uses_grouped (c : Config) :
  ~ uses_grouped c ->
  TraceStatements c = [] /\ MetricStatements c = [] /\ LogStatements c = [].
Proof.
  unfold uses_grouped. intros H.
  destruct (TraceStatements c); [|exfalso; apply H; left; discriminate].
  destruct (MetricStatements c); [|exfalso; apply H; right; left; discriminate].
  destruct (LogStatements c); [|exfalso; apply H; right; right; discriminate].
  done.
Qed.


End Worlds.

(** Parsers that count their calls: the world is the number of calls made
    so far, and the answers are those of the small parser above. *)
Definition countingFunctions (sig : Signal) (w : nat) : gset string * nat :=
  (demoFunctions sig, S w).
Definition countingNewParser (sig : Signal) (fns : gset string) (w : nat)
    : demoParser * nat := (demoNewParser sig fns, S w).
Definition countingParseStatements (p : demoParser) (l : list string) (w : nat)
    : (list string * error) * nat := (demoParseStatements p l, S w).
Definition countingNewParserCollection (sig : Signal) (fns : gset string)
    (w : nat) : (demoCollection * error) * nat :=
  (demoNewParserCollection sig fns, S w).
Definition countingParseContextStatements (pc : demoCollection)
    (cs : common.ContextStatements) (w : nat) : (option unit * error) * nat :=
  (demoParseContextStatements pc cs, S w).

Definition countingValidate : Config -> nat -> error * nat :=
  ValidateW nat string unit demoParser demoCollection
    countingFunctions countingNewParser countingParseStatements
    countingNewParserCollection countingParseContextStatements.

(** Legacy lists for the three signals; the metric and the log statements
    both call functions that are not registered. *)
Definition laterFailureConfig : Config :=
  {| TraceStatements := [];
     MetricStatements := [];
     LogStatements := [];
     OTTL := {| Traces := {| Statements := ["set(name, 1)"] |};
                Metrics := {| Statements := ["nosuch(unit)"] |};
                Logs := {| Statements := ["missing(body)"] |} |} |}.

Lemma Validate_reports_first_failure_witness :
  demoValidate laterFailureConfig =
  Some "undefined function nosuch".
Proof.
  apply (Validate_reports_first_failure _ _ _ _ demoFunctions demoNewParser
           demoParseStatements demoNewParserCollection
           demoParseContextStatements laterFailureConfig
           [JLegacy traces ["set(name, 1)"]]
           [JLegacy logs ["missing(body)"]]
           (JLegacy metrics ["nosuch(unit)"])).
  - intros [_ [H|[H|H]]]; apply H; reflexivity.
  - reflexivity.
  - intros j' Hj'. apply list_elem_of_singleton in Hj'. subst j'. reflexivity.
  - reflexivity.
Defined.

Definition spanGroup : common.ContextStatements :=
  {| common.Context := "span"; common.Statements := ["set(name, 2)"] |}.

Definition resourceGroup : common.ContextStatements :=
  {| common.Context := "resource";
     common.Statements := ["delete_key(attributes, 3)"] |}.

Definition groupedConfig (groups : list common.ContextStatements) : Config :=
  {| TraceStatements := groups;
     MetricStatements := [];
     LogStatements := [];
     OTTL := {| Traces := {| Statements := [] |};
                Metrics := {| Statements := [] |};
                Logs := {| Statements := [] |} |} |}.

Lemma Validate_acceptance_order_insensitive_witness :
  demoValidate (groupedConfig [resourceGroup; spanGroup]) = None <->
  demoValidate (groupedConfig [spanGroup; resourceGroup]) = None.
Proof.
  apply (Validate_acceptance_order_insensitive _ _ _ _ demoFunctions
           demoNewParser demoParseStatements demoNewParserCollection
           demoParseContextStatements
           (groupedConfig [spanGroup; resourceGroup])
           (groupedConfig [resourceGroup; spanGroup])).
  - reflexivity.
  - apply perm_swap.
  - reflexivity.
  - reflexivity.
Defined.

(** Registries that differ from the demo ones for metrics and logs only. *)
Definition otherFunctions (sig : Signal) : gset string :=
  match sig with
  | traces => demoFunctions traces
  | _ => ∅
  end.


Lemma Validate_accepts_per_signal_witness :
  demoValidate laterFailureConfig = None <->
  forall sig, demoValidate (only sig laterFailureConfig) = None.
Proof.
  apply (Validate_accepts_per_signal _ _ _ _ demoFunctions demoNewParser
           demoParseStatements demoNewParserCollection
           demoParseContextStatements laterFailureConfig).
  intros [_ [H|[H|H]]]; apply H; reflexivity.
Defined.

Definition noStatements : Config := groupedConfig [].


End transformprocessor.

(** ** The statement engine

    The engine that the transform processor configures: value model, context
    binding layer, function registry, condition evaluator and executor.  Its
    code is in [pkg/ottl] and [internal/common]; every definition of this
    module is modelled from the spec's description of it (sections 3 and 4),
    and the examples of section 8 are run on the model below. *)

Module engine.

(** Modelled from the spec: the value model of section 3, a tagged union.
    A floating point number is kept by its 64 bits and a timestamp by its
    nanoseconds; the order of the keys of a map carries no information. *)
#[warnings="-register-all"]
Inductive Value :=
  | VAbsent
  | VBool (b : bool)
  | VInt (i : Z)
  | VFloat (bits : Z)
  | VString (s : string)
  | VBytes (bs : list Byte.byte)
  | VTimestamp (ns : Z)
  | VList (l : list Value)
  | VMap (m : gmap string Value).

(** Modelled from the spec: the paths of section 3, a sequence of segments,
    each a field name, or a field name with an index or key. *)
Inductive Key :=
  | KString (k : string)
  | KIndex (i : nat).

Record Segment := mkSegment { name : string; key : option Key }.

Definition Path : Type := list Segment.

(** Modelled from the spec: the runtime errors of section 7. *)
Inductive RuntimeError :=
  | PathNotFound (p : Path)
  | PathReadOnly (p : Path)
  | TypeMismatch (what : string)
  | UndefinedFunction (f : string)
  | BadArguments (f : string).

Inductive result (A : Type) :=
  | Ok (a : A)
  | Err (e : RuntimeError).

Arguments Ok {A} a.
Arguments Err {A} e.

(** *** Section 4.2: reading a path *)

(** Modelled from the spec: the get accessor of the context binding layer.
    Access into a record fails gracefully: a field, key or index that is not
    there reads as [VAbsent]. *)
Definition get_field (n : string) (v : Value) : Value :=
  match v with
  | VMap m => default VAbsent (m !! n)
  | _ => VAbsent
  end.

Definition get_index (k : Key) (v : Value) : Value :=
  match k, v with
  | KString s, VMap m => default VAbsent (m !! s)
  | KIndex i, VList l => default VAbsent (l !! i)
  | _, _ => VAbsent
  end.

Definition get_segment (seg : Segment) (v : Value) : Value :=
  let f := get_field (name seg) v in
  match key seg with
  | None => f
  | Some k => get_index k f
  end.

Fixpoint get (p : Path) (r : Value) : Value :=
  match p with
  | [] => r
  | seg :: rest => get rest (get_segment seg r)
  end.

(** The shape of a record supports a path when every segment finds the
    field, and the key or index, it names. *)
Inductive has_index : Key -> Value -> Value -> Prop :=
  | has_key (m : gmap string Value) (k : string) (v : Value) :
      m !! k = Some v -> has_index (KString k) (VMap m) v
  | has_position (l : list Value) (i : nat) (v : Value) :
      l !! i = Some v -> has_index (KIndex i) (VList l) v.

Inductive supports : Path -> Value -> Prop :=
  | supports_nil (r : Value) : supports [] r
  | supports_field (n : string) (rest : Path)
      (m : gmap string Value) (v : Value) :
      m !! n = Some v -> supports rest v ->
      supports (mkSegment n None :: rest) (VMap m)
  | supports_indexed (n : string) (k : Key) (rest : Path)
      (m : gmap string Value) (f v : Value) :
      m !! n = Some f -> has_index k f v -> supports rest v ->
      supports (mkSegment n (Some k) :: rest) (VMap m).

(** *** Section 4.2: writing a path *)

(** Modelled from the spec: the set accessor of the context binding layer.
    As a set target a path creates the maps that are missing on its way; a
    scalar in the way, or a list position that does not exist, is a "path
    not found". *)
Definition as_map (v : Value) : option (gmap string Value) :=
  match v with
  | VMap m => Some m
  | VAbsent => Some ∅
  | _ => None
  end.

Fixpoint set_from (whole : Path) (p : Path) (x : Value) (r : Value)
    : result Value :=
  match p with
  | [] => Ok x
  | seg :: rest =>
      match as_map r with
      | None => Err (PathNotFound whole)
      | Some m =>
          let f := default VAbsent (m !! name seg) in
          match key seg with
          | None =>
              match set_from whole rest x f with
              | Ok f' => Ok (VMap (<[name seg := f']> m))
              | Err e => Err e
              end
          | Some (KString k) =>
              match as_map f with
              | None => Err (PathNotFound whole)
              | Some fm =>
                  match set_from whole rest x (default VAbsent (fm !! k)) with
                  | Ok g' => Ok (VMap (<[name seg := VMap (<[k := g']> fm)]> m))
                  | Err e => Err e
                  end
              end
          | Some (KIndex i) =>
              match f with
              | VList l =>
                  match l !! i with
                  | None => Err (PathNotFound whole)
                  | Some g =>
                      match set_from whole rest x g with
                      | Ok g' => Ok (VMap (<[name seg := VList (<[i := g']> l)]> m))
                      | Err e => Err e
                      end
                  end
              | _ => Err (PathNotFound whole)
              end
          end
      end
  end.

(** *** Expressions, conditions and statements (sections 3, 4.1, 4.4) *)

(** Modelled from the spec: the abstract syntax the parser produces. *)
#[warnings="-register-all"]
Inductive Expr :=
  | ELit (v : Value)
  | EPath (p : Path)
  | ECall (f : string) (args : list Expr).

Inductive CmpOp := OpEq | OpNe | OpLt | OpLe | OpGt | OpGe.

Inductive BoolExpr :=
  | BCmp (op : CmpOp) (a b : Expr)
  | BCall (f : string) (args : list Expr)
  | BAnd (a b : BoolExpr)
  | BOr (a b : BoolExpr).

Record Statement := mkStatement {
  editorName : string;
  arguments : list Expr;
  guard : option BoolExpr
}.

(** Modelled from the spec: the record shapes of section 4.2. *)
Inductive Shape :=
  | Resource | InstrumentationScope | Span | SpanEvent | DataPoint | LogRecord.

Global Instance Shape_eq_dec : EqDecision Shape.
Proof. solve_decision. Defined.

Record StatementGroup := mkStatementGroup {
  shape : Shape;
  statements : list Statement
}.

Section Engine.

(** Modelled from the spec: the context of one record shape, reduced to
    which paths are read-only. *)
Variable read_only : Path -> bool.

(** The function registry: pure converters, pure predicates for guards, and
    the editors the host registered besides the built-in ones. *)
Variable converters : gmap string (list Value -> result Value).
Variable predicates : gmap string (list Value -> result bool).
Variable extra_editors : gmap string (list Expr -> Value -> result Value).

(** IEEE 754 on the 64-bit patterns: the order of two numbers (none when one
    is not a number) and the conversion of an integer. *)
Variable float_compare : Z -> Z -> option comparison.
Variable float_of_int : Z -> Z.

Definition set_path (p : Path) (x : Value) (r : Value) : result Value :=
  if read_only p then Err (PathReadOnly p) else set_from p p x r.

Fixpoint eval (e : Expr) (r : Value) {struct e} : result Value :=
  match e with
  | ELit v => Ok v
  | EPath p => Ok (get p r)
  | ECall f args =>
      let fix eval_all (es : list Expr) : result (list Value) :=
        match es with
        | [] => Ok []
        | e' :: es' =>
            match eval e' r with
            | Err x => Err x
            | Ok v =>
                match eval_all es' with
                | Err x => Err x
                | Ok vs => Ok (v :: vs)
                end
            end
        end in
      match converters !! f with
      | None => Err (UndefinedFunction f)
      | Some invoke =>
          match eval_all args with
          | Err x => Err x
          | Ok vs => invoke vs
          end
      end
  end.

Definition eval_args (es : list Expr) (r : Value) : result (list Value) :=
  foldr (fun e acc =>
           match eval e r, acc with
           | Ok v, Ok vs => Ok (v :: vs)
           | Err x, _ => Err x
           | _, Err x => Err x
           end) (Ok []) es.

(** Modelled from the spec: the condition evaluator of section 4.4.  Values
    compare within one family only; across families the answer is "no
    order", which every operator turns into [false]. *)
Definition compare_values (a b : Value) : option comparison :=
  match a, b with
  | VAbsent, VAbsent => Some Eq
  | VBool x, VBool y => if decide (x = y) then Some Eq else None
  | VInt x, VInt y => Some (x ?= y)%Z
  | VInt x, VFloat y => float_compare (float_of_int x) y
  | VFloat x, VInt y => float_compare x (float_of_int y)
  | VFloat x, VFloat y => float_compare x y
  | VString x, VString y => Some (String.compare x y)
  | _, _ => None
  end.

Definition same_family (a b : Value) : bool :=
  match a, b with
  | VAbsent, _ | _, VAbsent => true
  | VBool _, VBool _ => true
  | (VInt _ | VFloat _), (VInt _ | VFloat _) => true
  | VString _, VString _ => true
  | _, _ => false
  end.

Definition eval_cmp (op : CmpOp) (a b : Value) : bool :=
  match op, compare_values a b with
  | OpEq, Some Eq => true
  | OpNe, Some Eq => false
  | OpNe, _ => same_family a b
  | OpLt, Some Lt => true
  | OpLe, Some (Lt | Eq) => true
  | OpGt, Some Gt => true
  | OpGe, Some (Gt | Eq) => true
  | _, _ => false
  end.

Fixpoint eval_bool (b : BoolExpr) (r : Value) : result bool :=
  match b with
  | BCmp op x y =>
      match eval x r, eval y r with
      | Ok vx, Ok vy => Ok (eval_cmp op vx vy)
      | Err e, _ => Err e
      | _, Err e => Err e
      end
  | BCall f args =>
      match predicates !! f with
      | None => Err (UndefinedFunction f)
      | Some invoke =>
          match eval_args args r with
          | Ok vs => invoke vs
          | Err e => Err e
          end
      end
  | BAnd x y =>
      match eval_bool x r with
      | Ok true => eval_bool y r
      | other => other
      end
  | BOr x y =>
      match eval_bool x r with
      | Ok false => eval_bool y r
      | other => other
      end
  end.

(** *** Section 4.3: editors *)

(** Modelled from the spec: the editor "set a path to a value". *)
Definition set_editor (args : list Expr) (r : Value) : result Value :=
  match args with
  | [EPath target; e] =>
      match eval e r with
      | Ok v => set_path target v r
      | Err x => Err x
      end
  | _ => Err (BadArguments "set")
  end.

(** Modelled from the spec: the editor [delete_key(map, key)]. *)
Definition delete_key_editor (args : list Expr) (r : Value) : result Value :=
  match args with
  | [EPath target; e] =>
      match eval e r, get target r with
      | Ok (VString k), VMap m => set_path target (VMap (delete k m)) r
      | Ok _, _ => Err (TypeMismatch "delete_key")
      | Err x, _ => Err x
      end
  | _ => Err (BadArguments "delete_key")
  end.

Definition invoke_editor (f : string) (args : list Expr) (r : Value)
    : result Value :=
  if decide (f = "set") then set_editor args r
  else if decide (f = "delete_key") then delete_key_editor args r
  else match extra_editors !! f with
       | Some editor => editor args r
       | None => Err (UndefinedFunction f)
       end.

(** *** Section 4.5: the executor *)

(** Modelled from the spec: one statement on one record.  The statement
    either edits the record or leaves it as it was; a runtime error is
    reported and the statement is skipped for that record. *)
Definition apply_statement (st : Statement) (r : Value)
    : Value * list RuntimeError :=
  match match guard st with
        | None => Ok true
        | Some g => eval_bool g r
        end with
  | Err e => (r, [e])
  | Ok false => (r, [])
  | Ok true =>
      match invoke_editor (editorName st) (arguments st) r with
      | Ok r' => (r', [])
      | Err e => (r, [e])
      end
  end.

Fixpoint execute (stmts : list Statement) (r : Value)
    : Value * list RuntimeError :=
  match stmts with
  | [] => (r, [])
  | st :: rest =>
      let (r1, d1) := apply_statement st r in
      let (r2, d2) := execute rest r1 in
      (r2, d1 ++ d2)
  end.

(** Modelled from the spec: [apply(statementGroups, batchOfRecords)].  For
    every record of a batch, every group bound to the record's shape is run,
    in the order of declaration. *)
Fixpoint apply_groups (groups : list StatementGroup) (sh : Shape) (r : Value)
    : Value * list RuntimeError :=
  match groups with
  | [] => (r, [])
  | g :: rest =>
      if decide (shape g = sh) then
        let (r1, d1) := execute (statements g) r in
        let (r2, d2) := apply_groups rest sh r1 in
        (r2, d1 ++ d2)
      else apply_groups rest sh r
  end.

Fixpoint process (groups : list StatementGroup) (batch : list (Shape * Value))
    : list (Shape * Value) * list RuntimeError :=
  match batch with
  | [] => ([], [])
  | (sh, r) :: rest =>
      let (r', d) := apply_groups groups sh r in
      let (rest', d') := process groups rest in
      ((sh, r') :: rest', d ++ d')
  end.

Lemma get_index_absent (k : Key) : get_index k VAbsent = VAbsent.
Proof. destruct k; reflexivity. Qed.

Lemma get_segment_absent (seg : Segment) : get_segment seg VAbsent = VAbsent.
Proof.
  unfold get_segment. simpl. destruct (key seg); [apply get_index_absent | reflexivity].
Qed.

Lemma get_absent (p : Path) : get p VAbsent = VAbsent.
Proof.
  induction p as [|seg rest IH]; simpl; [reflexivity|].
  rewrite get_segment_absent. exact IH.
Qed.

Lemma get_after_absent (seg : Segment) (rest : Path) (r : Value) :
  get_segment seg r = VAbsent -> get (seg :: rest) r = VAbsent.
Proof. intros H. simpl. rewrite H. apply get_absent. Qed.

Lemma get_unsupported (p : Path) (r : Value) :
  ~ supports p r -> get p r = VAbsent.
Proof.
  revert r. induction p as [|[n k] rest IH]; intros r Hno.
  - exfalso. apply Hno. constructor.
  - destruct r as [| | | | | | | |m];
      try (apply get_after_absent; unfold get_segment; simpl;
           destruct k; [apply get_index_absent | reflexivity]).
    destruct (m !! n) as [f|] eqn:Hf.
    2:{ apply get_after_absent. unfold get_segment. simpl. rewrite Hf. simpl.
        destruct k; [apply get_index_absent | reflexivity]. }
    destruct k as [k|].
    + destruct k as [s|i], f as [| | | | | | |l|fm];
        try (apply get_after_absent; unfold get_segment; simpl;
             rewrite Hf; reflexivity).
      * destruct (fm !! s) as [v|] eqn:Hv.
        -- simpl. unfold get_segment. simpl. rewrite Hf. simpl. rewrite Hv. simpl.
           apply IH. intros Hs. apply Hno.
           eapply supports_indexed; [exact Hf | constructor; exact Hv | exact Hs].
        -- apply get_after_absent. unfold get_segment. simpl.
           rewrite Hf. simpl. rewrite Hv. reflexivity.
      * destruct (l !! i) as [v|] eqn:Hv.
        -- simpl. unfold get_segment. simpl. rewrite Hf. simpl. rewrite Hv. simpl.
           apply IH. intros Hs. apply Hno.
           eapply supports_indexed; [exact Hf | constructor; exact Hv | exact Hs].
        -- apply get_after_absent. unfold get_segment. simpl.
           rewrite Hf. simpl. rewrite Hv. reflexivity.
    + simpl. unfold get_segment. simpl. rewrite Hf. simpl.
      apply IH. intros Hs. apply Hno.
      eapply supports_field; [exact Hf | exact Hs].
Qed.

Lemma apply_statement_isolated (st : Statement) (r : Value) :
  exists r' ds, apply_statement st r = (r', ds) /\ (ds = [] \/ r' = r).
Proof.
  unfold apply_statement.
  destruct (match guard st with None => Ok true | Some g => eval_bool g r end)
    as [[|]|e].
  - destruct (invoke_editor _ _ _) as [r'|e]; eauto.
  - eauto.
  - eauto.
Qed.

(** C4. A path that the shape of the record does not support reads as the
    absent value, and the expression that resolves it succeeds with that
    value instead of raising; applying a statement always returns, and what
    it returns is either an edited record without error or the record as it
    was together with the error that was isolated. *)
Theorem unsupported_path_reads_absent (p : Path) (r : Value) (st : Statement) :
  (~ supports p r -> get p r = VAbsent /\ eval (EPath p) r = Ok VAbsent) /\
  (exists r' ds, apply_statement st r = (r', ds) /\ (ds = [] \/ r' = r)).
Proof.
  split; [|apply apply_statement_isolated].
  intros Hno. simpl. rewrite (get_unsupported p r Hno). done.
Qed.

Lemma apply_groups_empty (groups : list StatementGroup) (sh : Shape) (r : Value) :
  Forall (fun g => statements g = []) groups ->
  apply_groups groups sh r = (r, []).
Proof.
  induction 1 as [|g groups Hg _ IH]; simpl; [reflexivity|].
  destruct (decide (shape g = sh)); [|exact IH].
  rewrite Hg. simpl. rewrite IH. reflexivity.
Qed.

(** C5. Applying statement groups that hold no statement leaves every record
    of the batch exactly as it was, and reports nothing. *)
Theorem empty_group_changes_nothing (groups : list StatementGroup)
    (batch : list (Shape * Value)) :
  Forall (fun g => statements g = []) groups ->
  process groups batch = (batch, []) /\
  (forall r, execute [] r = (r, [])).
Proof.
  intros Hempty. split; [|reflexivity].
  induction batch as [|[sh r] rest IH]; simpl; [reflexivity|].
  rewrite (apply_groups_empty groups sh r Hempty), IH. reflexivity.
Qed.

Lemma lookup_total_insert (m : gmap string Value) (n : string) (v : Value) :
  default VAbsent (<[n := v]> m !! n) = v.
Proof. rewrite lookup_insert_eq. reflexivity. Qed.

Lemma set_from_idempotent (whole p : Path) (x r r' : Value) :
  set_from whole p x r = Ok r' -> set_from whole p x r' = Ok r'.
Proof.
  revert r r'. induction p as [|[n k] rest IH]; intros r r' H; simpl in *.
  - inversion H; subst. reflexivity.
  - destruct (as_map r) as [m|]; [|discriminate].
    destruct k as [[s|i]|].
    + destruct (as_map (default VAbsent (m !! n))) as [fm|]; [|discriminate].
      destruct (set_from whole rest x (default VAbsent (fm !! s))) as [g'|e] eqn:Hg;
        [|discriminate].
      inversion H; subst. simpl.
      rewrite lookup_total_insert. simpl. rewrite lookup_total_insert.
      rewrite (IH _ _ Hg), !insert_insert_eq. reflexivity.
    + destruct (default VAbsent (m !! n)) as [| | | | | | |l|]; try discriminate.
      destruct (l !! i) as [g|] eqn:Hl; [|discriminate].
      destruct (set_from whole rest x g) as [g'|e] eqn:Hg; [|discriminate].
      inversion H; subst. simpl.
      rewrite lookup_total_insert.
      rewrite list_lookup_insert_eq by (eapply lookup_lt_Some; exact Hl).
      rewrite (IH _ _ Hg), list_insert_insert_eq, insert_insert_eq. reflexivity.
    + destruct (set_from whole rest x (default VAbsent (m !! n))) as [f'|e] eqn:Hf;
        [|discriminate].
      inversion H; subst. simpl.
      rewrite lookup_total_insert, (IH _ _ Hf), insert_insert_eq. reflexivity.
Qed.

Lemma set_path_idempotent (p : Path) (x r r' : Value) :
  set_path p x r = Ok r' -> set_path p x r' = Ok r'.
Proof.
  unfold set_path. destruct (read_only p); [discriminate|].
  apply set_from_idempotent.
Qed.

(** The statement "set [p] to the literal [L]", under any guard. *)
Definition set_literal (p : Path) (L : Value) (g : option BoolExpr) : Statement :=
  {| editorName := "set"; arguments := [EPath p; ELit L]; guard := g |}.

Lemma apply_set_literal (p : Path) (L : Value) (g : option BoolExpr) (r : Value) :
  (apply_statement (set_literal p L g) r).1 = r \/
  set_path p L r = Ok (apply_statement (set_literal p L g) r).1.
Proof.
  unfold apply_statement, set_literal. cbn [guard editorName arguments].
  destruct (match g with None => Ok true | Some g0 => eval_bool g0 r end)
    as [[|]|e]; [|left; reflexivity|left; reflexivity].
  unfold invoke_editor. destruct (decide ("set" = "set")); [|contradiction].
  unfold set_editor. cbn [eval].
  destruct (set_path p L r) as [r'|e'] eqn:Hs; [right | left]; reflexivity.
Qed.

(** C6. A statement that sets a path to a literal is idempotent: the record
    after two applications is the record after one, whatever the guard and
    whether or not the path can be written. *)
Theorem set_literal_idempotent (p : Path) (L : Value) (g : option BoolExpr)
    (r : Value) :
  let st := set_literal p L g in
  (apply_statement st (apply_statement st r).1).1 = (apply_statement st r).1 /\
  (execute [st; st] r).1 = (execute [st] r).1.
Proof.
  cbv zeta.
  assert (Hidem :
    (apply_statement (set_literal p L g)
       (apply_statement (set_literal p L g) r).1).1 =
    (apply_statement (set_literal p L g) r).1).
  { destruct (apply_set_literal p L g r) as [Hsame | Hset].
    - rewrite Hsame. exact Hsame.
    - apply set_path_idempotent in Hset.
      destruct (apply_set_literal p L g
                  (apply_statement (set_literal p L g) r).1) as [H2 | H2];
        [exact H2|].
      rewrite Hset in H2. injection H2 as H2. symmetry. exact H2. }
  split; [exact Hidem|].
  unfold execute.
  destruct (apply_statement (set_literal p L g) r) as [r1 d1].
  cbn [fst] in Hidem.
  destruct (apply_statement (set_literal p L g) r1) as [r2 d2].
  exact Hidem.
Qed.

End Engine.

(** *** The examples of section 8, run on the model *)

(** A span context: the owning resource and scope are read targets only. *)
Definition spanReadOnly (p : Path) : bool :=
  match p with
  | seg :: _ =>
      bool_decide (name seg = "resource") ||
      bool_decide (name seg = "instrumentation_scope")
  | [] => true
  end.

Definition noFloatOrder (x y : Z) : option comparison := None.

Definition demoApply : Statement -> Value -> Value * list RuntimeError :=
  apply_statement spanReadOnly ∅ ∅ ∅ noFloatOrder id.

Definition demoProcess
    : list StatementGroup -> list (Shape * Value) ->
      list (Shape * Value) * list RuntimeError :=
  process spanReadOnly ∅ ∅ ∅ noFloatOrder id.

Definition field_path (n : string) : Path := [mkSegment n None].
Definition keyed_path (n k : string) : Path := [mkSegment n (Some (KString k))].

Definition spanNamed (n : string) : Value :=
  VMap {[ "name" := VString n; "attributes" := VMap ∅ ]}.

(** [set(attributes[env], prod) where name == checkout]. *)
Definition setEnvWhereCheckout : Statement :=
  {| editorName := "set";
     arguments := [EPath (keyed_path "attributes" "env"); ELit (VString "prod")];
     guard := Some (BCmp OpEq (EPath (field_path "name"))
                      (ELit (VString "checkout"))) |}.

(** [delete_key(attributes, password)]. *)
Definition deletePassword : Statement :=
  {| editorName := "delete_key";
     arguments := [EPath (field_path "attributes"); ELit (VString "password")];
     guard := None |}.

(** [set(name, found) where attributes[missing] == x]. *)
Definition setWhereMissing : Statement :=
  {| editorName := "set";
     arguments := [EPath (field_path "name"); ELit (VString "found")];
     guard := Some (BCmp OpEq (EPath (keyed_path "attributes" "missing"))
                      (ELit (VString "x"))) |}.

Example set_env_on_checkout :
  get (keyed_path "attributes" "env")
    (demoApply setEnvWhereCheckout (spanNamed "checkout")).1 = VString "prod" /\
  demoApply setEnvWhereCheckout (spanNamed "other") = (spanNamed "other", []).
Proof. split; vm_compute; reflexivity. Qed.

Example delete_password_key :
  demoApply deletePassword
    (VMap {[ "attributes" :=
               VMap {[ "password" := VString "x"; "user" := VString "a" ]} ]}) =
  (VMap {[ "attributes" := VMap {[ "user" := VString "a" ]} ]}, []).
Proof. vm_compute. reflexivity. Qed.

Example missing_attribute_compares_false :
  demoApply setWhereMissing (spanNamed "checkout") = (spanNamed "checkout", []).
Proof. vm_compute. reflexivity. Qed.

Example resource_is_read_only :
  demoApply {| editorName := "set";
               arguments := [EPath (keyed_path "resource" "k"); ELit (VInt 1)];
               guard := None |} (spanNamed "checkout") =
  (spanNamed "checkout", [PathReadOnly (keyed_path "resource" "k")]).
Proof. vm_compute. reflexivity. Qed.

Lemma unsupported_path_reads_absent_witness :
  get (keyed_path "attributes" "missing") (VInt 5) = VAbsent /\
  eval ∅ (EPath (keyed_path "attributes" "missing")) (VInt 5) = Ok VAbsent.
Proof.
  apply (proj1 (unsupported_path_reads_absent spanReadOnly ∅ ∅ ∅ noFloatOrder id
                  (keyed_path "attributes" "missing") (VInt 5) deletePassword)).
  intros H. inversion H.
Defined.

Lemma empty_group_changes_nothing_witness :
  demoProcess [ {| shape := Span; statements := [] |};
                {| shape := LogRecord; statements := [] |} ]
    [(Span, spanNamed "checkout"); (LogRecord, VString "not a record")] =
  ([(Span, spanNamed "checkout"); (LogRecord, VString "not a record")], []).
Proof.
  apply (proj1 (empty_group_changes_nothing spanReadOnly ∅ ∅ ∅ noFloatOrder id
                  [ {| shape := Span; statements := [] |};
                    {| shape := LogRecord; statements := [] |} ]
                  [(Span, spanNamed "checkout"); (LogRecord, VString "not a record")]
                  ltac:(repeat constructor))).
Defined.

End engine.

(** ** exporter/carbonexporter/exporter_test.go: [generateLargeBatch] *)

Module carbonexporter.

(** The part of the collector's [pdata] that the generator touches.  A
    [pcommon.Map] maps a key to one value, and [PutStr] inserts or replaces. *)
Inductive AnyValue :=
  | ValueStr (s : string)
  | ValueInt (i : Z).

Definition PutStr (k v : string) (m : gmap string AnyValue)
    : gmap string AnyValue := <[k := ValueStr v]> m.

Inductive NumberValue :=
  | NumberEmpty
  | NumberInt (i : Z)
  | NumberDouble (bits : Z).

Record NumberDataPoint := mkNumberDataPoint {
  Attributes : gmap string AnyValue;
  Timestamp : Z;
  Value : NumberValue
}.

Inductive MetricData :=
  | DataEmpty
  | DataGauge (points : list NumberDataPoint)
  | DataSum (points : list NumberDataPoint).

Record Metric := mkMetric { Name : string; Data : MetricData }.

Record ScopeMetrics := mkScopeMetrics { ScopeMetricSlice : list Metric }.

Record ResourceMetrics := mkResourceMetrics {
  ResourceAttributes : gmap string AnyValue;
  ScopeMetricsSlice : list ScopeMetrics
}.

Definition Metrics : Type := list ResourceMetrics.

(** A fresh element, as [AppendEmpty] adds it, and the setters. *)
Definition emptyDataPoint : NumberDataPoint :=
  {| Attributes := ∅; Timestamp := 0; Value := NumberEmpty |}.

Definition putAttr (k v : string) (dp : NumberDataPoint) : NumberDataPoint :=
  {| Attributes := PutStr k v (Attributes dp);
     Timestamp := Timestamp dp; Value := Value dp |}.

Definition SetTimestamp (ts : Z) (dp : NumberDataPoint) : NumberDataPoint :=
  {| Attributes := Attributes dp; Timestamp := ts; Value := Value dp |}.

Definition SetIntValue (i : Z) (dp : NumberDataPoint) : NumberDataPoint :=
  {| Attributes := Attributes dp; Timestamp := Timestamp dp;
     Value := NumberInt i |}.

(** [pmetric.Metrics.MetricCount] and [DataPointCount]. *)
Definition dataPoints (m : Metric) : nat :=
  match Data m with
  | DataEmpty => 0
  | DataGauge points => length points
  | DataSum points => length points
  end.

Definition MetricCount (md : Metrics) : Z :=
  Z.of_nat
    (sum_list_with
       (fun rm => sum_list_with (fun sm => length (ScopeMetricSlice sm))
                    (ScopeMetricsSlice rm)) md).

Definition DataPointCount (md : Metrics) : Z :=
  Z.of_nat
    (sum_list_with
       (fun rm => sum_list_with
                    (fun sm => sum_list_with dataPoints (ScopeMetricSlice sm))
                    (ScopeMetricsSlice rm)) md).

(** [strconv.Itoa]: the decimal digits, with a minus sign below zero. *)
Definition Itoa (i : Z) : string := pretty i.

(** [conventions.AttributeServiceName]. *)
Definition AttributeServiceName : string := "service.name".

(** The body of the loop: the metric appended in round [i]. *)
Definition roundMetric (ts : Z) (i : Z) : Metric :=
  let dp := SetIntValue i
              (SetTimestamp ts
                 (putAttr "k1" "v1" (putAttr "k0" "v0" emptyDataPoint))) in
  {| Name := "test_" +:+ Itoa i; Data := DataGauge [dp] |}.

(** [ts] is the [time.Now()] the generator reads, in nanoseconds. *)
Definition generateLargeBatch (ts : Z) : Metrics :=
  let ms := foldl (fun ms i => ms ++ [roundMetric ts i]) [] (seqZ 0 65000) in
  [ {| ResourceAttributes := PutStr AttributeServiceName "test_carbon" ∅;
       ScopeMetricsSlice := [ {| ScopeMetricSlice := ms |} ] |} ].

(** All metrics of a batch, in order. *)
Definition allMetrics (md : Metrics) : list Metric :=
  rm ← md; sm ← ScopeMetricsSlice rm; ScopeMetricSlice sm.

Lemma append_loop {A B : Type} (f : B -> A) (l : list B) (acc : list A) :
  foldl (fun ms i => ms ++ [f i]) acc l = acc ++ (f <$> l).
Proof.
  revert acc. induction l as [|x l IH]; intros acc; simpl.
  - rewrite app_nil_r. reflexivity.
  - rewrite IH, <- app_assoc. reflexivity.
Qed.

Lemma sum_one_point (ts : Z) (l : list Z) :
  sum_list_with dataPoints (roundMetric ts <$> l) = length l.
Proof.
  induction l as [|x l IH]; [reflexivity|].
  rewrite fmap_cons. cbn [sum_list_with length]. rewrite IH. reflexivity.
Qed.

Lemma batch_metrics (ts : Z) :
  allMetrics (generateLargeBatch ts) = roundMetric ts <$> seqZ 0 65000.
Proof.
  unfold allMetrics, generateLargeBatch.
  rewrite append_loop. cbn [mbind list_bind ScopeMetricsSlice ScopeMetricSlice].
  rewrite !app_nil_r. reflexivity.
Qed.

Lemma roundMetric_name_inj (ts : Z) :
  Inj (=) (=) (Name ∘ roundMetric ts).
Proof.
  intros i j H. simpl in H. unfold Itoa in H.
  apply (inj (String.append "test_")) in H.
  apply (inj pretty) in H. exact H.
Qed.

(** X9. The generated batch holds 65000 metrics and 65000 data points: one
    data point for each metric, so that counting the lines to wait for by
    [MetricCount] (as [Test_connPool_Concurrency] does) or by
    [DataPointCount] (as [TestConsumeMetricsData] does) gives the same
    number. *)
Theorem generateLargeBatch_counts (ts : Z) :
  MetricCount (generateLargeBatch ts) = 65000%Z /\
  DataPointCount (generateLargeBatch ts) = 65000%Z /\
  Forall (fun m => dataPoints m = 1) (allMetrics (generateLargeBatch ts)).
Proof.
  split; [|split].
  - unfold MetricCount, generateLargeBatch.
    cbn [sum_list_with ScopeMetricsSlice ScopeMetricSlice].
    rewrite append_loop, app_nil_l, length_fmap, length_seqZ. lia.
  - unfold DataPointCount, generateLargeBatch.
    cbn [sum_list_with ScopeMetricsSlice ScopeMetricSlice].
    rewrite append_loop, app_nil_l, sum_one_point, length_seqZ. lia.
  - rewrite batch_metrics. apply Forall_fmap, Forall_true. reflexivity.
Qed.

(** X10. The metrics of the generated batch have pairwise different names,
    and the metric at position [i] is the gauge [test_i] with the single
    integer data point [i], the attributes [k0 = v0] and [k1 = v1] and the
    timestamp read at the start. *)
Theorem generateLargeBatch_metrics (ts : Z) :
  NoDup (Name <$> allMetrics (generateLargeBatch ts)) /\
  (forall i : nat, (Z.of_nat i < 65000)%Z ->
     allMetrics (generateLargeBatch ts) !! i =
       Some {| Name := "test_" +:+ Itoa (Z.of_nat i);
               Data := DataGauge
                 [ {| Attributes := {[ "k0" := ValueStr "v0";
                                      "k1" := ValueStr "v1" ]};
                      Timestamp := ts;
                      Value := NumberInt (Z.of_nat i) |} ] |}).
Proof.
  rewrite batch_metrics. split.
  - rewrite <- list_fmap_compose.
    apply (NoDup_fmap_2 (Name ∘ roundMetric ts) (Inj0 := roundMetric_name_inj ts)).
    apply NoDup_seqZ.
  - intros i Hi. rewrite list_lookup_fmap, lookup_seqZ_lt by exact Hi.
    reflexivity.
Qed.

Lemma generateLargeBatch_metrics_witness :
  allMetrics (generateLargeBatch 1668000000000000000) !! 7 =
    Some {| Name := "test_7";
            Data := DataGauge
              [ {| Attributes := {[ "k0" := ValueStr "v0";
                                   "k1" := ValueStr "v1" ]};
                   Timestamp := 1668000000000000000;
                   Value := NumberInt 7 |} ] |}.
Proof.
  apply (proj2 (generateLargeBatch_metrics 1668000000000000000) 7).
  lia.
Defined.

End carbonexporter.
